(** * Verification of the arena agent: schema sanitizer, tool aggregator
      and decision loop

    Shallow embedding of [src/sanitize-tools.ts], [src/config-strategy.ts]
    and [src/index.ts].

    Modelling conventions.
    - A JSON value is the tree [json].  A plain object is the list of its
      own enumerable entries in [Object.entries] order; [out[key] = v] is
      [obj_set].  Property names are ordinary data keys: the accessor name
      [__proto__] of JavaScript objects is outside the model.
    - Numbers are never inspected by the code; they are carried as integers.
    - A [ToolSet] and [process.env] are string-keyed maps ([gmap]).
    - Effects of the outside world (tool providers, the model backend) are
      oracles over an abstract [World]; every call to one is recorded in a
      trace, together with the console output. *)

From Stdlib Require Import ZArith Ascii.
From stdpp Require Import base tactics option list strings pretty gmap fin_maps.

Local Open Scope string_scope.
Local Open Scope list_scope.

(** ** JSON values *)

Module Json.

Unset Elimination Schemes.
Inductive json : Type :=
  | JNull
  | JBool (b : bool)
  | JNum (n : Z)
  | JStr (s : string)
  | JArr (items : list json)
  | JObj (fields : list (string * json)).
Set Elimination Schemes.

(** [Record<string, unknown>]: the entries of a plain object. *)
Definition Record : Type := list (string * json).

(** [out[key] = value] on a plain object: an existing key keeps its
    position and takes the new value, a new key is added last. *)
Fixpoint obj_set (out : Record) (key : string) (value : json) : Record :=
  match out with
  | [] => [(key, value)]
  | (k, v) :: rest =>
      if String.eqb k key then (k, value) :: rest
      else (k, v) :: obj_set rest key value
  end.

Definition keys (o : Record) : list string := o.*1.

End Json.
Export Json.

(** ** sanitize-tools.ts *)

Definition STRIP_KEYS : list string :=
  [ "minLength"; "maxLength"; "minItems"; "maxItems";
    "exclusiveMinimum"; "exclusiveMaximum";
    "pattern"; "format"; "default"; "$schema" ].

(** [STRIP_KEYS.has(key)] *)
Definition STRIP_KEYS_has (key : string) : bool :=
  existsb (String.eqb key) STRIP_KEYS.

Section SanitizeBody.
(** The body of [sanitizeSchema], with the recursive call abstracted. *)
Variable self : json -> json.

(** The callback of [value.map]: a plain object is sanitized, any other
    item (a leaf, but also an array) is returned as it is. *)
Definition sanitizeItem (item : json) : json :=
  match item with
  | JObj _ => self item
  | _ => item
  end.

(** What is stored under a kept key: the three branches of the [if]. *)
Definition sanitizeValue (value : json) : json :=
  match value with
  | JObj _ => self value
  | JArr items => JArr (map sanitizeItem items)
  | _ => value
  end.

(** One iteration of [for (const [key, value] of Object.entries(schema))]. *)
Definition sanitizeEntry (out : Record) (entry : string * json) : Record :=
  let '(key, value) := entry in
  if STRIP_KEYS_has key then out
  else obj_set out key (sanitizeValue value).
End SanitizeBody.

(** [sanitizeSchema] on a value that is a plain object (both call sites
    test this before the call); the last case is never reached. *)
Fixpoint sanitizeObject (schema : json) : json :=
  match schema with
  | JObj fields => JObj (fold_left (sanitizeEntry sanitizeObject) fields [])
  | _ => schema
  end.

(** [sanitizeSchema(schema: Record<string, unknown>): Record<string, unknown>] *)
Definition sanitizeSchema (schema : Record) : Record :=
  fold_left (sanitizeEntry sanitizeObject) schema [].

(** ** Properties of schema trees *)

(** Some mapping node of [v], at any depth and through any nesting of
    arrays and objects, has the key [key]. *)
Fixpoint mentions (key : string) (v : json) : bool :=
  match v with
  | JObj fields =>
      existsb (fun kv => String.eqb kv.1 key || mentions key kv.2) fields
  | JArr items => existsb (mentions key) items
  | _ => false
  end.

(** Some mapping node of [v] that the traversal of [sanitizeSchema] visits
    has the key [key]: the traversal enters the object-valued entries of a
    mapping and the object items of an array-valued entry, and nothing
    else; in particular not an array that is itself an item of an array. *)
Fixpoint mentions_visited (key : string) (v : json) : bool :=
  match v with
  | JObj fields =>
      existsb (fun kv =>
        String.eqb kv.1 key ||
        match kv.2 with
        | JObj _ => mentions_visited key kv.2
        | JArr items =>
            existsb (fun item =>
              match item with
              | JObj _ => mentions_visited key item
              | _ => false
              end) items
        | _ => false
        end) fields
  | _ => false
  end.




(** ** Vocabulary for statements about the sanitizer *)

(** An entry that the loop stores back as it is. *)
Definition settled (kv : string * json) : Prop :=
  STRIP_KEYS_has kv.1 = false /\ sanitizeValue sanitizeObject kv.2 = kv.2.

(** The part of [mentions_visited] below an array item and below the value
    of an entry. *)
Definition visited_in_item (key : string) (item : json) : bool :=
  match item with
  | JObj _ => mentions_visited key item
  | _ => false
  end.

Definition visited_in_value (key : string) (value : json) : bool :=
  match value with
  | JObj _ => mentions_visited key value
  | JArr items => existsb (visited_in_item key) items
  | _ => false
  end.


(** ** Tools *)

(** The schema wrapper of the [ai] package.  [jsonSchema(j)] builds a
    [Schema] whose [jsonSchema] property is [j], and [asSchema] resolves a
    tool's [inputSchema] to a [Schema].  An [inputSchema] is represented by
    the [Schema] it resolves to; its [jsonSchema] property is any JSON value
    or is absent ([None], JavaScript's [undefined]). *)
Record Schema : Type := { jsonSchema_prop : option json }.

Definition jsonSchema (j : json) : Schema := {| jsonSchema_prop := Some j |}.
Definition asSchema (inputSchema : Schema) : Schema := inputSchema.

(** A tool: its description, its parameter schema and the handler that the
    owning connection supplied (an opaque token). *)
Record Tool : Type := {
  description : option string;
  inputSchema : Schema;
  execute : nat;
}.

Abbreviation ToolSet := (gmap string Tool).

(** [!raw] *)
Definition falsy (raw : option json) : bool :=
  match raw with
  | None | Some JNull | Some (JBool false) | Some (JNum 0%Z) | Some (JStr "") => true
  | _ => false
  end.

(** [typeof raw === "object"]: objects, arrays and [null]. *)
Definition typeof_object (raw : option json) : bool :=
  match raw with
  | Some JNull | Some (JArr _) | Some (JObj _) => true
  | _ => false
  end.

(** [Object.entries] of an array: its items under their decimal indices. *)
Definition array_entries (items : list json) : Record :=
  imap (fun i item => (pretty i, item)) items.

(** [raw as Record<string, unknown>], for a [raw] that passed the test of
    [sanitizeTools] (an object or an array). *)
Definition as_record (raw : option json) : Record :=
  match raw with
  | Some (JObj fields) => fields
  | Some (JArr items) => array_entries items
  | _ => []
  end.

(** One iteration of the loop of [sanitizeTools]: the tool stored under
    [name]. *)
Definition sanitizeTool (tool : Tool) : Tool :=
  let resolved := asSchema tool.(inputSchema) in
  let raw := resolved.(jsonSchema_prop) in
  if falsy raw || negb (typeof_object raw) then tool
  else
    let cleaned := sanitizeSchema (as_record raw) in
    {| description := tool.(description);
       inputSchema := jsonSchema (JObj cleaned);
       execute := tool.(execute) |}.

Definition sanitizeTools (tools : ToolSet) : ToolSet :=
  map_fold (fun name tool out => <[name := sanitizeTool tool]> out) ∅ tools.

(** The schema of [tool] does not resolve to a structural object form:
    resolution produced no value ([undefined] or [null]), or a value that is
    not an object (a boolean, a number or a string). *)
Definition unresolved_schema (tool : Tool) : bool :=
  match (asSchema tool.(inputSchema)).(jsonSchema_prop) with
  | None | Some JNull => true
  | Some (JBool _) | Some (JNum _) | Some (JStr _) => true
  | Some (JArr _) | Some (JObj _) => false
  end.

(** ** index.ts: environment and transports *)

(** A thrown [Error], by its message. *)
Definition Error : Type := string.

(** The outcome of a call: a value, or a thrown error. *)
Inductive Result (A : Type) : Type :=
  | Ok (a : A)
  | Throw (e : Error).
Arguments Ok {A} a.
Arguments Throw {A} e.

(** [process.env]. *)
Abbreviation Env := (gmap string string).

(** [!process.env[v]]: the variable is unset or set to the empty string. *)
Definition env_falsy (env : Env) (v : string) : bool :=
  match env !! v with
  | None => true
  | Some value => String.eqb value ""
  end.


(** The name of a [${NAME}] placeholder: the text up to the first closing
    brace, and what follows that brace. *)
Fixpoint until_brace (s : string) : option (string * string) :=
  match s with
  | EmptyString => None
  | String c rest =>
      if Ascii.eqb c "}"%char then Some (EmptyString, rest)
      else match until_brace rest with
           | Some (name, after) => Some (String c name, after)
           | None => None
           end
  end.

(** [str.replace(/\$\{([^}]+)\}/g, (_, name) => process.env[name] ?? "")],
    scanning from the left; [fuel] bounds the number of scanning steps. *)
Fixpoint expandEnvVars_scan (fuel : nat) (env : Env) (str : string) : string :=
  match fuel with
  | 0 => str
  | S fuel =>
      match str with
      | EmptyString => EmptyString
      | String "$"%char (String "{"%char rest as tail) =>
          match until_brace rest with
          | Some (String c name, after) =>
              (default "" (env !! String c name)
                 ++ expandEnvVars_scan fuel env after)%string
          | _ => String "$"%char (expandEnvVars_scan fuel env tail)
          end
      | String c rest => String c (expandEnvVars_scan fuel env rest)
      end
  end.

Definition expandEnvVars (env : Env) (str : string) : string :=
  expandEnvVars_scan (String.length str) env str.

Inductive HttpType : Type := Sse | Http.

(** [McpTransport = McpHttpTransport | McpStdioTransport]; an optional
    property is [None] when absent, a [Record<string, string>] is the list
    of its entries. *)
Inductive McpTransport : Type :=
  | McpHttpTransport (type : HttpType) (url : string)
      (params headers : option (list (string * string)))
  | McpStdioTransport (command : string) (args : option (list string))
      (env : option (list (string * string))).

Record McpServerConfig : Type := {
  requires : option (list string);
  transport : McpTransport;
}.

Record ModelConfig : Type := {
  provider : string;
  model_id : string;
  base_url : option string;
}.

Record AgentConfig : Type := {
  system_prompt : string;
  model : ModelConfig;
  mcp_servers : option (list (string * McpServerConfig));
}.

(** [expandAllEnvVars] on a [Record<string, string>]: values are expanded,
    keys are not. *)
Definition expandAllEnvVars_record (env : Env) (r : list (string * string))
    : list (string * string) :=
  map (fun kv => (kv.1, expandEnvVars env kv.2)) r.

(** [expandAllEnvVars(server.transport)]: every string below the transport
    object is expanded.  The [type] tag is one of three literals without a
    placeholder and is carried by the constructor. *)
Definition expandAllEnvVars (env : Env) (t : McpTransport) : McpTransport :=
  match t with
  | McpHttpTransport type url params headers =>
      McpHttpTransport type (expandEnvVars env url)
        (expandAllEnvVars_record env <$> params)
        (expandAllEnvVars_record env <$> headers)
  | McpStdioTransport command args envOverrides =>
      McpStdioTransport (expandEnvVars env command)
        (map (expandEnvVars env) <$> args)
        (expandAllEnvVars_record env <$> envOverrides)
  end.

(** [url.includes("?")] *)
Fixpoint includes_question_mark (url : string) : bool :=
  match url with
  | EmptyString => false
  | String c rest => Ascii.eqb c "?"%char || includes_question_mark rest
  end.

(** What is handed to [createMCPClient] as [transport]. *)
Inductive MCPTransport : Type :=
  | StdioMCPTransport (command : string) (args : list string) (env : Env)
  | RemoteMCPTransport (type : HttpType) (url : string)
      (headers : option (list (string * string))).

(** [{ ...process.env, ...expanded.env }]: the overrides win. *)
Definition spread_env (env : Env) (overrides : option (list (string * string))) : Env :=
  match overrides with
  | Some entries => fold_left (fun acc kv => <[kv.1 := kv.2]> acc) entries env
  | None => env
  end.

(** ** The outside world *)

(** The handle returned by [createMCPClient]. *)
Definition Client : Type := nat.

Inductive Role : Type := user | assistant.

Record Message : Type := { role : Role; content : string }.

Record ToolCall : Type := { toolName : string; input : json }.

Record Step : Type := { toolCalls : list ToolCall }.

(** The part of the result of [generateText] that the agent reads. *)
Record GenerateResult : Type := { text : string; steps : list Step }.

(** The model handle built by [getModel]: the provider factory that was
    used and what it was given. *)
Inductive LanguageModel : Type :=
  | XaiModel (apiKey modelId : string)
  | OpenAIModel (apiKey modelId : string)
  | AnthropicModel (apiKey modelId : string)
  | GoogleModel (apiKey modelId : string)
  | OpenAIChatModel (baseURL apiKey modelId : string).

(** The argument of [generateText]; [stopWhen] is the count given to
    [stepCountIs]. *)
Record GenerateArgs : Type := {
  arg_model : LanguageModel;
  arg_tools : ToolSet;
  arg_stopWhen : nat;
  arg_system : string;
  arg_messages : list Message;
}.

(** The lines written with [console.log], by their content. *)
Inductive LogLine : Type :=
  | LogSkipping (name : string) (missing : list string)
  | LogConnecting (name : string)
  | LogLoaded (tools servers : nat)
  | LogRunning
  | LogStrategyComplete
  | LogToolCall (toolName : string) (input : option json)
  | LogRetry (attempt : nat)
  | LogWarningNoSubmit (attempts : nat)
  | LogCompleted (steps toolCalls : nat).

(** What the agent does to the outside world, in the order it does it. *)
Inductive Event : Type :=
  | EvLog (line : LogLine)
  | EvCreateClient (transport : MCPTransport)
  | EvTools (client : Client)
  | EvClose (client : Client)
  | EvGenerateText (args : GenerateArgs).

(** The operations of the packages the agent calls, as functions of the
    state of the outside world.  Each returns normally or throws. *)
Class Externals (World : Type) : Type := {
  createMCPClient : MCPTransport -> World -> Result Client * World;
  client_tools : Client -> World -> Result ToolSet * World;
  client_close : Client -> World -> Result unit * World;
  generateText : GenerateArgs -> World -> Result GenerateResult * World;
  URLSearchParams_toString : list (string * string) -> string;
}.

(** The state threaded through a run: the outside world and the trace of
    what was done to it so far. *)
Record Machine (World : Type) : Type := {
  world : World;
  trace : list Event;
}.
Arguments world {World} m.
Arguments trace {World} m.

(** A computation that may throw, over the machine state. *)
Definition M (World A : Type) : Type := Machine World -> Result A * Machine World.

Definition ret {World A} (a : A) : M World A := fun m => (Ok a, m).

Definition throw {World A} (e : Error) : M World A := fun m => (Throw e, m).

Definition bind {World A B} (c : M World A) (k : A -> M World B) : M World B :=
  fun m =>
    match c m with
    | (Ok a, m') => k a m'
    | (Throw e, m') => (Throw e, m')
    end.

(** [try { body } finally { cleanup }]: the cleanup always runs; if it
    throws, its error replaces the outcome of the body. *)
Definition try_finally {World A} (body : M World A) (cleanup : M World unit)
    : M World A :=
  fun m =>
    let (outcome, m1) := body m in
    match cleanup m1 with
    | (Ok _, m2) => (outcome, m2)
    | (Throw e, m2) => (Throw e, m2)
    end.

(** The machine after one more event. *)
Definition record {World} (ev : Event) (m : Machine World) : Machine World :=
  {| world := m.(world); trace := m.(trace) ++ [ev] |}.

(** An awaited call of an external operation, recorded in the trace. *)
Definition call {World A} (ev : Event) (op : World -> Result A * World) : M World A :=
  fun m =>
    let (r, w) := op m.(world) in
    (r, {| world := w; trace := m.(trace) ++ [ev] |}).

(** [console.log(...)] *)
Definition log {World} (line : LogLine) : M World unit :=
  fun m => (Ok tt, record (EvLog line) m).

(** [for (const x of xs) { body(x) }] *)
Fixpoint for_of {World A} (xs : list A) (body : A -> M World unit) : M World unit :=
  match xs with
  | [] => ret tt
  | x :: rest => bind (body x) (fun _ => for_of rest body)
  end.

Declare Scope agent_scope.
Delimit Scope agent_scope with agent.
Notation "'let*' x := c 'in' k" := (bind c (fun x => k))
  (at level 10, x name, c at level 100, k at level 200,
   format "'[v' 'let*'  x  :=  c  'in'  '/' k ']'") : agent_scope.
Local Open Scope agent_scope.

(** ** index.ts: connecting the servers *)

Record ConnectedServer : Type := {
  name : string;
  client : Client;
  tools : ToolSet;
}.

(** [server.requires.filter((v) => !process.env[v])], and no name when
    [server.requires] is absent. *)
Definition missing_env (env : Env) (server : McpServerConfig) : list string :=
  match server.(requires) with
  | Some required => List.filter (env_falsy env) required
  | None => []
  end.

Section Connect.
Context {World : Type} `{!Externals World}.
Variable env : Env.

Definition buildTransportUrl (url : string)
    (params : option (list (string * string))) : string :=
  match params with
  | None => url
  | Some params =>
      let search := URLSearchParams_toString params in
      let separator := if includes_question_mark url then "&" else "?" in
      (url ++ separator ++ search)%string
  end.

(** The transport built from the expanded descriptor, one case per
    [type]. *)
Definition client_transport (expanded : McpTransport) : MCPTransport :=
  match expanded with
  | McpStdioTransport command args overrides =>
      StdioMCPTransport command (default [] args) (spread_env env overrides)
  | McpHttpTransport type url params headers =>
      RemoteMCPTransport type (buildTransportUrl url params) headers
  end.

(** The loop of [connectMcpServers] over [Object.entries(servers)];
    [connected] is the array built so far. *)
Fixpoint connect_entries (entries : list (string * McpServerConfig))
    (connected : list ConnectedServer) : M World (list ConnectedServer) :=
  match entries with
  | [] => ret connected
  | (name, server) :: rest =>
      match missing_env env server with
      | (_ :: _) as missing =>
          let* _ := log (LogSkipping name missing) in
          connect_entries rest connected
      | [] =>
          let expanded := expandAllEnvVars env server.(transport) in
          let* _ := log (LogConnecting name) in
          let transport := client_transport expanded in
          let* client := call (EvCreateClient transport) (createMCPClient transport) in
          let* tools := call (EvTools client) (client_tools client) in
          connect_entries rest
            (connected ++ [ {| name := name; client := client; tools := tools |} ])
      end
  end.

Definition connectMcpServers (servers : list (string * McpServerConfig))
    : M World (list ConnectedServer) :=
  connect_entries servers [].
End Connect.

(** ** config-strategy.ts *)

Definition MAX_ATTEMPTS : nat := 3.
Definition SUBMIT_TOOL : string := "submit_decision".

(** [!s] for an optional string: absent or empty. *)
Definition string_falsy (s : option string) : bool :=
  match s with
  | None => true
  | Some s => String.eqb s ""
  end.

(** The double-quote character, as a string. *)
Definition double_quote : string := String "034"%char EmptyString.

Definition getModel (env : Env) (config : AgentConfig) : Result LanguageModel :=
  let apiKey := env !! "LLM_API_KEY" in
  if string_falsy apiKey then Throw "Missing LLM_API_KEY env var"
  else
    let apiKey := default "" apiKey in
    let provider := config.(model).(provider) in
    let model_id := config.(model).(model_id) in
    let base_url := config.(model).(base_url) in
    if String.eqb provider "xai" then Ok (XaiModel apiKey model_id)
    else if String.eqb provider "openai" then Ok (OpenAIModel apiKey model_id)
    else if String.eqb provider "anthropic" then Ok (AnthropicModel apiKey model_id)
    else if String.eqb provider "google" then Ok (GoogleModel apiKey model_id)
    else if string_falsy base_url then
      Throw ("Unknown provider " ++ double_quote ++ provider ++ double_quote
               ++ " with no base_url")%string
    else Ok (OpenAIChatModel (default "" base_url) apiKey model_id).

Definition hasSubmitDecision (steps : list Step) : bool :=
  existsb (fun step =>
    existsb (fun c => String.eqb c.(toolName) SUBMIT_TOOL) step.(toolCalls)) steps.

(** The first message of every conversation. *)
Definition seed_message : Message :=
  {| role := user;
     content := "Analyze the market and make your trading decision for this interval." |}.

(** The message pushed after an attempt without submission. *)
Definition corrective_message : Message :=
  {| role := user;
     content := "You did not call submit_decision. You MUST call submit_decision with your trades to complete your turn. Analyze the market and submit now." |}.

(** The local variables of [runConfigStrategy]. *)
Record Locals : Type := {
  messages : list Message;
  totalSteps : nat;
  totalToolCalls : nat;
}.

(** The local variables before the loop. *)
Definition initial_locals : Locals :=
  {| messages := [ seed_message ]; totalSteps := 0; totalToolCalls := 0 |}.

(** [totalSteps += ...; totalToolCalls += ...] *)
Definition count_result (locals : Locals) (result : GenerateResult) : Locals :=
  {| messages := locals.(messages);
     totalSteps := locals.(totalSteps) + length result.(steps);
     totalToolCalls :=
       locals.(totalToolCalls) +
       fold_left (fun n s => n + length s.(toolCalls)) result.(steps) 0 |}.

(** The two [messages.push(...)] of a retry. *)
Definition push_retry (locals : Locals) (result : GenerateResult) : Locals :=
  {| messages :=
       locals.(messages)
         ++ [ {| role := assistant; content := result.(text) |} ]
         ++ [ corrective_message ];
     totalSteps := locals.(totalSteps);
     totalToolCalls := locals.(totalToolCalls) |}.

(** The argument of the call of [generateText] in an attempt. *)
Definition generate_args (model : LanguageModel) (tools : ToolSet)
    (config : AgentConfig) (locals : Locals) : GenerateArgs :=
  {| arg_model := model; arg_tools := tools; arg_stopWhen := 10;
     arg_system := config.(system_prompt);
     arg_messages := locals.(messages) |}.

Section Strategy.
Context {World : Type} `{!Externals World}.

Definition logSteps (steps : list Step) : M World unit :=
  for_of steps (fun step =>
    for_of step.(toolCalls) (fun call =>
      if String.eqb call.(toolName) SUBMIT_TOOL
      then log (LogToolCall call.(toolName) (Some call.(input)))
      else log (LogToolCall call.(toolName) None))).

(** [for (let attempt = 1; attempt <= MAX_ATTEMPTS; attempt++)]: the
    values of [attempt] still to run are [todo]; returning without the
    recursive call is the [break]. *)
Fixpoint attempts (model : LanguageModel) (tools : ToolSet) (config : AgentConfig)
    (todo : list nat) (locals : Locals) : M World Locals :=
  match todo with
  | [] => ret locals
  | attempt :: later =>
      let args := generate_args model tools config locals in
      let* result := call (EvGenerateText args) (generateText args) in
      let* _ := logSteps result.(steps) in
      let locals := count_result locals result in
      if hasSubmitDecision result.(steps) then ret locals
      else if (attempt <? MAX_ATTEMPTS)%nat then
        let* _ := log (LogRetry attempt) in
        attempts model tools config later (push_retry locals result)
      else
        let* _ := log (LogWarningNoSubmit MAX_ATTEMPTS) in
        attempts model tools config later locals
  end.

(** [runConfigStrategy]; the source returns nothing, the model returns
    the local variables as they are when the function ends. *)
Definition runConfigStrategy (env : Env) (tools : ToolSet) (config : AgentConfig)
    : M World Locals :=
  match getModel env config with
  | Throw e => throw e
  | Ok model =>
      let* locals :=
        attempts model tools config (seq 1 MAX_ATTEMPTS) initial_locals in
      let* _ := log (LogCompleted locals.(totalSteps) locals.(totalToolCalls)) in
      ret locals
  end.
End Strategy.

(** ** index.ts: [runConfigMode] *)

(** [Object.assign(rawTools, server.tools)]: the entries of the source
    overwrite those of the target. *)
Definition Object_assign (target source : ToolSet) : ToolSet := source ∪ target.

(** The loop that merges the tools of the connected servers, in order. *)
Definition merge_tools (servers : list ConnectedServer) : ToolSet :=
  fold_left (fun rawTools server => Object_assign rawTools server.(tools)) servers ∅.

Section RunConfigMode.
Context {World : Type} `{!Externals World}.

(** The [finally] block. *)
Definition close_servers (servers : list ConnectedServer) : M World unit :=
  for_of servers (fun server =>
    call (EvClose server.(client)) (client_close server.(client))).

(** What follows [connectMcpServers] in [runConfigMode]. *)
Definition run_with_servers (env : Env) (config : AgentConfig)
    (servers : list ConnectedServer) : M World unit :=
  let rawTools := merge_tools servers in
  let allTools := sanitizeTools rawTools in
  let* _ := log (LogLoaded (size allTools) (length servers)) in
  try_finally
    (let* _ := log LogRunning in
     let* _ := runConfigStrategy env allTools config in
     log LogStrategyComplete)
    (close_servers servers).

Definition runConfigMode (env : Env) (config : AgentConfig) : M World unit :=
  let* servers := connectMcpServers env (default [] config.(mcp_servers)) in
  run_with_servers env config servers.
End RunConfigMode.

(** ** Observations on a trace *)

(** The clients whose [close] was called, in call order. *)
Definition closed_clients (events : list Event) : list Client :=
  omap (fun ev => match ev with EvClose c => Some c | _ => None end) events.

(** The arguments of the calls of [generateText], in call order. *)
Definition invocations (events : list Event) : list GenerateArgs :=
  omap (fun ev => match ev with EvGenerateText a => Some a | _ => None end) events.


(** The console output, in order. *)
Definition console (events : list Event) : list LogLine :=
  omap (fun ev => match ev with EvLog l => Some l | _ => None end) events.

Definition is_submit_line (line : LogLine) : bool :=
  match line with
  | LogToolCall toolName (Some _) => String.eqb toolName SUBMIT_TOOL
  | _ => false
  end.

Definition is_warning_line (line : LogLine) : bool :=
  match line with LogWarningNoSubmit _ => true | _ => false end.

Definition is_retry_line (line : LogLine) : bool :=
  match line with LogRetry _ => true | _ => false end.

(** What a run reports about submission: the console shows a call of the
    submission tool with its arguments. *)
Definition submitted (events : list Event) : bool :=
  existsb is_submit_line (console events).

(** The console shows the warning that no submission was made. *)
Definition warned_no_submit (events : list Event) : bool :=
  existsb is_warning_line (console events).

(** The console shows a retry notice. *)
Definition retried (events : list Event) : bool :=
  existsb is_retry_line (console events).

(** ** Vocabulary for statements about runs *)

(** Whatever the outcome, [c] only adds events that satisfy [P]. *)
Definition appends {World A} (P : Event -> Prop) (c : M World A) : Prop :=
  forall m, exists delta, trace (c m).2 = trace m ++ delta /\ Forall P delta.

Definition is_close (ev : Event) : Prop :=
  match ev with EvClose _ => True | _ => False end.

Definition not_close (ev : Event) : Prop := ~ is_close ev.

(** The lines [logSteps] prints for the steps of one result. *)
Definition step_lines (steps : list Step) : list LogLine :=
  flat_map (fun step =>
    map (fun call =>
      if String.eqb call.(toolName) SUBMIT_TOOL
      then LogToolCall call.(toolName) (Some call.(input))
      else LogToolCall call.(toolName) None) step.(toolCalls)) steps.

(** The echo of the model's text and the corrective message, for each
    text, in order. *)
Definition nudges (texts : list string) : list Message :=
  flat_map (fun t => [ {| role := assistant; content := t |}; corrective_message ]) texts.

(** The machine after a list of events. *)
Definition record_all {World} (evs : list Event) (m : Machine World) : Machine World :=
  {| world := m.(world); trace := m.(trace) ++ evs |}.

(** The calls made to the outside world: the trace without the console. *)
Definition effects (events : list Event) : list Event :=
  omap (fun ev => match ev with EvLog _ => None | _ => Some ev end) events.

(** A model stub that never emits a call of the submission tool: every
    invocation returns a result none of whose steps has such a call. *)
Definition never_submits {World} `{!Externals World} : Prop :=
  forall args w, exists result w',
    generateText args w = (Ok result, w') /\
    hasSubmitDecision result.(steps) = false.

(** No call of [close] ever fails. *)
Definition closes_succeed {World} `{!Externals World} : Prop :=
  forall c w, exists w', client_close c w = (Ok tt, w').

(** ** Further vocabulary *)



(** Each list is a prefix of every later one. *)
Fixpoint nested_prefixes {A} (ls : list (list A)) : Prop :=
  match ls with
  | [] => True
  | l :: rest => Forall (fun l' => l `prefix_of` l') rest /\ nested_prefixes rest
  end.

(** The number of tool calls in the steps of one result. *)
Definition tool_calls_in (result : GenerateResult) : nat :=
  sum_list_with (fun step => length step.(toolCalls)) result.(steps).

Definition is_tool_call_line (line : LogLine) : bool :=
  match line with LogToolCall _ _ => true | _ => false end.

(** [result] is what some call of [generateText] with [args] returned. *)
Definition returned_for {World} `{!Externals World}
    (args : GenerateArgs) (result : GenerateResult) : Prop :=
  exists w w', generateText args w = (Ok result, w').

(** Some call of [generateText] with [args] threw [e]. *)
Definition thrown_for {World} `{!Externals World}
    (args : GenerateArgs) (e : Error) : Prop :=
  exists w w', generateText args w = (Throw e, w').

(** What every invocation of one run is given. *)
Definition given (model : LanguageModel) (tools : ToolSet) (config : AgentConfig)
    (conversation : list Message) (args : GenerateArgs) : Prop :=
  arg_model args = model /\ arg_tools args = tools /\ arg_stopWhen args = 10 /\
  arg_system args = system_prompt config /\
  conversation `prefix_of` arg_messages args.

(** The providers [getModel] has a factory for. *)
Definition known_providers : list string := [ "xai"; "openai"; "anthropic"; "google" ].

(** [s.includes(c)] for a character [c]. *)
Fixpoint contains_char (c : ascii) (s : string) : bool :=
  match s with
  | EmptyString => false
  | String c' rest => Ascii.eqb c' c || contains_char c rest
  end.



(** The events of the connection phase. *)
Definition connecting (ev : Event) : Prop :=
  match ev with
  | EvLog _ | EvCreateClient _ | EvTools _ => True
  | EvClose _ | EvGenerateText _ => False
  end.



(** ** Example worlds *)

(** A world that counts the calls made to it.  Connections succeed and take
    the count as handle; every server exposes one tool; the model looks at
    prices and never submits. *)
Definition price_tool : Tool :=
  {| description := Some "Latest prices";
     inputSchema := jsonSchema (JObj [ ("type", JStr "object") ]);
     execute := 0 |}.

Definition idle_result : GenerateResult :=
  {| text := "Prices look flat.";
     steps := [ {| toolCalls := [ {| toolName := "get_prices"; input := JObj [] |} ] |} ] |}.

Definition submit_result : GenerateResult :=
  {| text := "Submitted.";
     steps := [ {| toolCalls := [ {| toolName := "get_prices"; input := JObj [] |} ] |};
                {| toolCalls := [ {| toolName := "submit_decision";
                                     input := JObj [ ("trades", JArr []) ] |} ] |} ] |}.

Definition idle_world : Externals nat :=
  {| createMCPClient _ w := (Ok w, S w);
     client_tools _ w := (Ok {[ "get_prices" := price_tool ]}, S w);
     client_close _ w := (Ok tt, S w);
     generateText _ w := (Ok idle_result, S w);
     URLSearchParams_toString _ := "" |}.

(** The same world with a model that submits at once. *)
Definition compliant_world : Externals nat :=
  {| createMCPClient _ w := (Ok w, S w);
     client_tools _ w := (Ok {[ "get_prices" := price_tool ]}, S w);
     client_close _ w := (Ok tt, S w);
     generateText _ w := (Ok submit_result, S w);
     URLSearchParams_toString _ := "" |}.


Definition example_config : AgentConfig :=
  {| system_prompt := "Trade carefully.";
     model := {| provider := "openai"; model_id := "gpt"; base_url := None |};
     mcp_servers := None |}.

Definition example_env : Env := {[ "LLM_API_KEY" := "k"; "EMPTY" := "" ]}.



Definition open_server : McpServerConfig :=
  {| requires := None;
     transport := McpHttpTransport Sse "https://arena.example/mcp/sse" None None |}.

Definition start : Machine nat := {| world := 0; trace := [] |}.

Definition first_server : ConnectedServer :=
  {| name := "arena"; client := 1; tools := {[ "get_prices" := price_tool ]} |}.

Definition second_server : ConnectedServer :=
  {| name := "taostats"; client := 2; tools := {[ "get_prices" := price_tool ]} |}.

(** A world whose model backend is down. *)
Definition failing_world : Externals nat :=
  {| createMCPClient _ w := (Ok w, S w);
     client_tools _ w := (Ok {[ "get_prices" := price_tool ]}, S w);
     client_close _ w := (Ok tt, S w);
     generateText _ w := (Throw "503 from provider", S w);
     URLSearchParams_toString _ := "" |}.

(** A world whose model submits on its second invocation only. *)
Definition late_world : Externals nat :=
  {| createMCPClient _ w := (Ok w, S w);
     client_tools _ w := (Ok {[ "get_prices" := price_tool ]}, S w);
     client_close _ w := (Ok tt, S w);
     generateText _ w := (Ok (if Nat.eqb w 0 then idle_result else submit_result), S w);
     URLSearchParams_toString _ := "" |}.

(** A world in which only the first connection succeeds. *)
Definition flaky_world : Externals nat :=
  {| createMCPClient _ w := (if Nat.eqb w 0 then Ok 0 else Throw "ECONNREFUSED", S w);
     client_tools _ w := (Ok {[ "get_prices" := price_tool ]}, S w);
     client_close _ w := (Ok tt, S w);
     generateText _ w := (Ok submit_result, S w);
     URLSearchParams_toString _ := "" |}.

Definition two_servers_config : AgentConfig :=
  {| system_prompt := "Trade carefully.";
     model := {| provider := "openai"; model_id := "gpt"; base_url := None |};
     mcp_servers := Some [ ("arena", open_server); ("mirror", open_server) ] |}.

(** * Proofs *)

(** ** Induction over JSON trees *)

Lemma json_nested_ind (P : json -> Prop) :
  P JNull ->
  (forall b, P (JBool b)) ->
  (forall n, P (JNum n)) ->
  (forall s, P (JStr s)) ->
  (forall items, Forall P items -> P (JArr items)) ->
  (forall fields, Forall (fun kv => P kv.2) fields -> P (JObj fields)) ->
  forall v, P v.
Proof.
  intros Hnull Hbool Hnum Hstr Harr Hobj.
  fix self 1.
  intros [ | b | n | s | items | fields ];
    [ exact Hnull | apply Hbool | apply Hnum | apply Hstr | apply Harr | apply Hobj ].
  - induction items as [ | item items IH ]; constructor; [apply self | exact IH].
  - induction fields as [ | [k v] fields IH ]; constructor; [apply self | exact IH].
Qed.

(** ** Plain objects as entry lists *)


Lemma obj_set_fresh out key value :
  key ∉ keys out -> obj_set out key value = out ++ [(key, value)].
Proof.
  induction out as [ | [k v] out IH ]; simpl; [done | ].
  intros Hfresh. apply not_elem_of_cons in Hfresh as [Hne Hfresh].
  destruct (String.eqb_spec k key) as [-> | _]; [done | ].
  by rewrite IH.
Qed.

Lemma obj_set_keys out key value :
  key ∈ keys out -> keys (obj_set out key value) = keys out.
Proof.
  induction out as [ | [k v] out IH ]; simpl; [by intros ?%elem_of_nil | ].
  intros Hin. destruct (String.eqb_spec k key) as [-> | Hne]; [done | ].
  simpl. f_equal. apply IH. apply elem_of_cons in Hin as [ | ]; congruence.
Qed.

Lemma obj_set_NoDup out key value :
  NoDup (keys out) -> NoDup (keys (obj_set out key value)).
Proof.
  intros Hnd. destruct (decide (key ∈ keys out)) as [Hin | Hfresh].
  - by rewrite obj_set_keys.
  - rewrite obj_set_fresh by done. unfold keys. rewrite fmap_app. simpl.
    apply NoDup_app. split_and!; [done | | apply NoDup_singleton].
    intros k Hk ->%list_elem_of_singleton. done.
Qed.

Lemma obj_set_Forall (Q : string * json -> Prop) out key value :
  Forall Q out -> Q (key, value) -> Forall Q (obj_set out key value).
Proof.
  intros Hout Hnew. induction Hout as [ | [k v] out Hkv Hout IH ]; simpl.
  - by constructor.
  - destruct (String.eqb_spec k key) as [-> | _]; by constructor.
Qed.

(** ** The sanitizer's loop *)

Lemma sanitize_fold_settled entries out :
  NoDup (keys (out ++ entries)) ->
  Forall settled entries ->
  fold_left (sanitizeEntry sanitizeObject) entries out = out ++ entries.
Proof.
  revert out. induction entries as [ | [k v] entries IH ]; intros out Hnd Hall; simpl.
  - by rewrite app_nil_r.
  - apply Forall_cons in Hall as [[Hkeep Hval] Hall]. simpl in Hkeep, Hval.
    rewrite Hkeep, Hval.
    rewrite obj_set_fresh.
    + rewrite IH; [by rewrite <- app_assoc | by rewrite <- app_assoc | done].
    + unfold keys in Hnd. rewrite fmap_app in Hnd. simpl in Hnd.
      apply NoDup_app in Hnd as (_ & Hdisj & _).
      intros Hin. apply (Hdisj k Hin). by left.
Qed.

Lemma sanitize_fold_invariant (Q : string * json -> Prop) entries out :
  Forall Q out ->
  Forall (fun kv => STRIP_KEYS_has kv.1 = false ->
                    Q (kv.1, sanitizeValue sanitizeObject kv.2)) entries ->
  Forall Q (fold_left (sanitizeEntry sanitizeObject) entries out).
Proof.
  revert out. induction entries as [ | [k v] entries IH ]; intros out Hout Hall; simpl.
  - done.
  - apply Forall_cons in Hall as [Hkv Hall]. simpl in Hkv. apply IH; [ | done].
    destruct (STRIP_KEYS_has k); [done | ].
    apply obj_set_Forall; auto.
Qed.

Lemma sanitize_fold_NoDup entries out :
  NoDup (keys out) ->
  NoDup (keys (fold_left (sanitizeEntry sanitizeObject) entries out)).
Proof.
  revert out. induction entries as [ | [k v] entries IH ]; intros out Hnd; simpl.
  - done.
  - apply IH. destruct (STRIP_KEYS_has k); [done | by apply obj_set_NoDup].
Qed.

Lemma sanitizeObject_unfold fields :
  sanitizeObject (JObj fields) = JObj (sanitizeSchema fields).
Proof. reflexivity. Qed.

(** ** Idempotence *)

Lemma sanitize_idempotent_all v :
  sanitizeObject (sanitizeObject v) = sanitizeObject v /\
  sanitizeItem sanitizeObject (sanitizeItem sanitizeObject v)
    = sanitizeItem sanitizeObject v /\
  sanitizeValue sanitizeObject (sanitizeValue sanitizeObject v)
    = sanitizeValue sanitizeObject v.
Proof.
  induction v as [ | b | n | s | items IH | fields IH ] using json_nested_ind; try done.
  - (* an array: as a value its items are mapped, as an item it is kept *)
    split_and!; [done | done | ]. simpl. f_equal.
    rewrite <- list_fmap_compose. apply Forall_fmap_ext_1.
    eapply Forall_impl; [exact IH | ]. by intros item (_ & Hitem & _).
  - (* a mapping: the loop's output is stored back unchanged *)
    assert (sanitizeObject (sanitizeObject (JObj fields))
            = sanitizeObject (JObj fields)) as Hobj; [ | by rewrite !Hobj].
    rewrite !sanitizeObject_unfold. f_equal. unfold sanitizeSchema at 1.
    apply (sanitize_fold_settled _ []).
    + apply sanitize_fold_NoDup. constructor.
    + apply sanitize_fold_invariant; [constructor | ].
      eapply Forall_impl; [exact IH | ].
      intros [k v] (_ & _ & Hval) Hkeep. by split.
Qed.

(** ** Boolean quantifiers over lists *)

Lemma existsb_false_Forall {A} (f : A -> bool) (l : list A) :
  existsb f l = false <-> Forall (fun x => f x = false) l.
Proof.
  induction l as [ | x l IH ]; simpl.
  - split; [constructor | done].
  - rewrite orb_false_iff, IH, Forall_cons. done.
Qed.


(** ** Identity on clean input *)




(** ** Completeness of the denylist on the visited nodes *)

Lemma mentions_visited_unfold key fields :
  mentions_visited key (JObj fields) =
  existsb (fun kv => String.eqb kv.1 key || visited_in_value key kv.2) fields.
Proof. reflexivity. Qed.

Lemma sanitize_strips_visited key v :
  STRIP_KEYS_has key = true ->
  mentions_visited key (sanitizeObject v) = false /\
  visited_in_value key (sanitizeValue sanitizeObject v) = false.
Proof.
  intros Hkey.
  induction v as [ | b | n | s | items IH | fields IH ] using json_nested_ind;
    try done.
  - split; [done | ]. simpl. apply existsb_false_Forall, Forall_fmap.
    eapply Forall_impl; [exact IH | ]. intros item [Hitem _]. simpl.
    by destruct item.
  - assert (mentions_visited key (sanitizeObject (JObj fields)) = false) as Hobj;
      [ | by split].
    rewrite sanitizeObject_unfold, mentions_visited_unfold.
    apply existsb_false_Forall. unfold sanitizeSchema.
    apply (sanitize_fold_invariant
             (fun kv => String.eqb kv.1 key || visited_in_value key kv.2 = false));
      [constructor | ].
    eapply Forall_impl; [exact IH | ]. intros [k v] [_ Hval] Hkeep. simpl in *.
    apply orb_false_iff. split; [ | done].
    apply String.eqb_neq. congruence.
Qed.


(** ** Claims about [sanitizeSchema] *)

(** C1, as stated, fails: a mapping that sits in an array which is itself an
    item of an array is handed back untouched, so its denylisted key
    survives.  Here [{"type": "array", "examples": [[{"format": "uri"}]]}]
    comes back unchanged and still has the key [format]. *)
Lemma sanitizeSchema_keeps_key_in_array_of_arrays :
  let schema :=
    [ ("type", JStr "array");
      ("examples", JArr [ JArr [ JObj [ ("format", JStr "uri") ] ] ]) ] in
  STRIP_KEYS_has "format" = true /\
  mentions "format" (JObj schema) = true /\
  sanitizeSchema schema = schema /\
  mentions "format" (JObj (sanitizeSchema schema)) = true.
Proof. by vm_compute. Qed.

(** C1 (amended): for every schema and every denylisted key, the output of
    [sanitizeSchema] has that key in no mapping node that the traversal
    visits, i.e. at any depth below the root through object-valued entries
    and through the object items of array-valued entries. *)
Theorem sanitizeSchema_strips_visited_nodes (schema : Record) (key : string) :
  STRIP_KEYS_has key = true ->
  mentions_visited key (JObj (sanitizeSchema schema)) = false.
Proof.
  intros Hkey. rewrite <- sanitizeObject_unfold.
  by apply sanitize_strips_visited.
Qed.

Lemma sanitizeSchema_strips_visited_nodes_witness :
  let schema :=
    [ ("type", JStr "object"); ("$schema", JStr "http://json-schema.org/draft-07/schema#");
      ("properties",
        JObj [ ("url", JObj [ ("type", JStr "string"); ("format", JStr "uri") ]) ]);
      ("anyOf", JArr [ JObj [ ("format", JStr "date") ]; JNull ]) ] in
  mentions_visited "format" (JObj schema) = true /\
  mentions_visited "format" (JObj (sanitizeSchema schema)) = false.
Proof.
  split; [reflexivity | ].
  apply sanitizeSchema_strips_visited_nodes. reflexivity.
Defined.

(** C7: [sanitizeSchema] is idempotent: sanitizing an already sanitized
    schema returns it unchanged. *)
Theorem sanitizeSchema_idempotent (schema : Record) :
  sanitizeSchema (sanitizeSchema schema) = sanitizeSchema schema.
Proof.
  destruct (sanitize_idempotent_all (JObj schema)) as [Hobj _].
  rewrite !sanitizeObject_unfold in Hobj. by injection Hobj.
Qed.



(** ** [sanitizeTools] *)

Lemma sanitizeTools_fmap (tools : ToolSet) :
  sanitizeTools tools = sanitizeTool <$> tools.
Proof.
  unfold sanitizeTools.
  apply (map_fold_weak_ind (fun out (m : ToolSet) => out = sanitizeTool <$> m)).
  - by rewrite fmap_empty.
  - intros name tool m out _ ->. by rewrite fmap_insert.
Qed.

Lemma sanitizeTools_lookup (tools : ToolSet) (name : string) :
  sanitizeTools tools !! name = sanitizeTool <$> tools !! name.
Proof. by rewrite sanitizeTools_fmap, lookup_fmap. Qed.

(** C9: a tool whose parameter schema does not resolve to an object is kept
    by [sanitizeTools] under its name, unchanged; and no tool is ever
    removed: the output has exactly the names of the input. *)
Theorem sanitizeTools_keeps_unresolved_tool
    (tools : ToolSet) (name : string) (tool : Tool) :
  tools !! name = Some tool ->
  unresolved_schema tool = true ->
  sanitizeTools tools !! name = Some tool /\
  dom (sanitizeTools tools) = dom tools.
Proof.
  intros Hname Hraw. split.
  - rewrite sanitizeTools_lookup, Hname. simpl. f_equal.
    unfold sanitizeTool. unfold unresolved_schema in Hraw.
    destruct (jsonSchema_prop (asSchema (inputSchema tool)))
      as [[ | [] | [ | | ] | [ | ] | | ] | ]; done.
  - rewrite sanitizeTools_fmap. apply dom_fmap_L.
Qed.

Lemma sanitizeTools_keeps_unresolved_tool_witness :
  let broken := {| description := Some "raw"; inputSchema := {| jsonSchema_prop := None |};
                   execute := 1 |} in
  let typed := {| description := None;
                  inputSchema := jsonSchema (JObj [ ("type", JStr "object");
                                                    ("default", JNull) ]);
                  execute := 2 |} in
  let tools : ToolSet := {[ "a" := broken; "b" := typed ]} in
  sanitizeTools tools !! "a" = Some broken /\
  dom (sanitizeTools tools) = dom tools.
Proof.
  intros broken typed tools.
  apply (sanitizeTools_keeps_unresolved_tool tools "a" broken); reflexivity.
Defined.

(** ** Computations and their traces *)

Section EffectLemmas.
Context {World : Type}.
Implicit Types m : Machine World.

Lemma appends_ret {A} P (a : A) : appends P (ret (World := World) a).
Proof. intros m. exists []. by rewrite app_nil_r. Qed.

Lemma appends_throw {A} P e : appends P (throw (World := World) (A := A) e).
Proof. intros m. exists []. by rewrite app_nil_r. Qed.

Lemma appends_log P line : P (EvLog line) -> appends P (log (World := World) line).
Proof. intros HP m. exists [EvLog line]. split; [done | by constructor]. Qed.

Lemma appends_call {A} P ev (op : World -> Result A * World) :
  P ev -> appends P (call ev op).
Proof.
  intros HP m. exists [ev]. unfold call. destruct (op (world m)) as [r w].
  split; [done | by constructor].
Qed.

Lemma appends_bind {A B} P (c : M World A) (k : A -> M World B) :
  appends P c -> (forall a, appends P (k a)) -> appends P (bind c k).
Proof.
  intros Hc Hk m. unfold bind. destruct (Hc m) as (d1 & Ht1 & HP1).
  destruct (c m) as [[a | e] m1]; simpl in *.
  - destruct (Hk a m1) as (d2 & Ht2 & HP2). exists (d1 ++ d2).
    rewrite Ht2, Ht1, app_assoc. split; [done | by apply Forall_app].
  - by exists d1.
Qed.

Lemma appends_for_of {A} P (xs : list A) (body : A -> M World unit) :
  (forall x, appends P (body x)) -> appends P (for_of xs body).
Proof.
  intros Hbody. induction xs as [ | x xs IH ]; simpl.
  - apply appends_ret.
  - apply appends_bind; [apply Hbody | by intros _].
Qed.

Lemma closed_clients_app (t1 t2 : list Event) :
  closed_clients (t1 ++ t2) = closed_clients t1 ++ closed_clients t2.
Proof. apply omap_app. Qed.

Lemma closed_clients_none (delta : list Event) :
  Forall (fun ev => ~ is_close ev) delta -> closed_clients delta = [].
Proof.
  induction 1 as [ | ev delta Hev _ IH ]; [done | ].
  unfold closed_clients in *. simpl. destruct ev; simpl in *; tauto.
Qed.
End EffectLemmas.

(** ** [expandEnvVars]: the scan always reaches the end of the string *)

Lemma until_brace_length s name after :
  until_brace s = Some (name, after) ->
  String.length name + String.length after < String.length s.
Proof.
  revert name after. induction s as [ | c s IH ]; intros name after; simpl; [done | ].
  destruct (Ascii.eqb c "}").
  - intros [= <- <-]. simpl. lia.
  - destruct (until_brace s) as [[name' after'] | ]; [ | done].
    intros [= <- <-]. specialize (IH name' after' eq_refl). simpl. lia.
Qed.

Lemma expandEnvVars_scan_enough env n :
  forall str fuel,
    String.length str <= n -> n <= fuel ->
    expandEnvVars_scan fuel env str = expandEnvVars_scan n env str.
Proof.
  induction n as [ | n IH ]; intros str fuel Hlen Hfuel.
  - destruct str; [ | simpl in Hlen; lia]. by destruct fuel.
  - destruct fuel as [ | fuel ]; [lia | ].
    destruct str as [ | c str ]; [done | ]. simpl in Hlen.
    cbn [expandEnvVars_scan].
    assert (expandEnvVars_scan fuel env str = expandEnvVars_scan n env str) as Hrest
      by (apply IH; lia).
    destruct (Ascii.eqb_spec c "$") as [-> | Hc].
    + destruct str as [ | d rest ]; [by rewrite Hrest | ].
      destruct (Ascii.eqb_spec d "{") as [-> | Hd].
      * destruct (until_brace rest) as [[[ | c' name] after] | ] eqn:Hname;
          try by rewrite Hrest.
        apply until_brace_length in Hname. simpl in Hname, Hlen.
        f_equal. apply IH; lia.
      * destruct d as [[] [] [] [] [] [] [] []]; by rewrite ?Hrest.
    + destruct c as [[] [] [] [] [] [] [] []]; by rewrite ?Hrest.
Qed.

(** More fuel than the length of the string changes nothing. *)
Lemma expandEnvVars_fuel env str fuel :
  String.length str <= fuel ->
  expandEnvVars_scan fuel env str = expandEnvVars env str.
Proof. intros Hfuel. by apply expandEnvVars_scan_enough. Qed.

(** ** [connectMcpServers] *)

Section ConnectLemmas.
Context {World : Type} `{!Externals World}.
Implicit Types m : Machine World.








End ConnectLemmas.



(** ** Merging the tools of the servers *)

Lemma Object_assign_lookup (target source : ToolSet) (t : string) :
  Object_assign target source !! t =
  match source !! t with
  | Some tool => Some tool
  | None => target !! t
  end.
Proof.
  unfold Object_assign. rewrite lookup_union.
  by destruct (source !! t), (target !! t).
Qed.

Lemma merge_tools_snoc (servers : list ConnectedServer) (last : ConnectedServer) :
  merge_tools (servers ++ [last]) = Object_assign (merge_tools servers) last.(tools).
Proof. unfold merge_tools. by rewrite fold_left_app. Qed.

Lemma merge_tools_silent_suffix (servers post : list ConnectedServer) (t : string) :
  Forall (fun s => s.(tools) !! t = None) post ->
  merge_tools (servers ++ post) !! t = merge_tools servers !! t.
Proof.
  induction post as [ | s post IH ] using rev_ind; intros Hnone.
  - by rewrite app_nil_r.
  - rewrite Forall_app, Forall_singleton in Hnone. destruct Hnone as [Hpost Hs].
    rewrite app_assoc, merge_tools_snoc, Object_assign_lookup, Hs. by apply IH.
Qed.

(** C6: when providers [A] and [B], connected in that order, both expose a
    tool named [t], the merged set maps [t] to the tool of [B], provided no
    provider connected after [B] exposes [t] as well; in particular for the
    two providers alone.  The merge is a total function: a collision
    raises nothing. *)
Theorem merge_tools_last_write_wins
    (pre mid post : list ConnectedServer) (A B : ConnectedServer)
    (t : string) (toolA toolB : Tool) :
  A.(tools) !! t = Some toolA ->
  B.(tools) !! t = Some toolB ->
  Forall (fun s => s.(tools) !! t = None) post ->
  merge_tools (pre ++ A :: mid ++ B :: post) !! t = Some toolB /\
  merge_tools [A; B] !! t = Some toolB.
Proof.
  intros HA HB Hpost. split.
  - replace (pre ++ A :: mid ++ B :: post)
      with (((pre ++ A :: mid) ++ [B]) ++ post)
      by (by rewrite <- !app_assoc).
    rewrite merge_tools_silent_suffix by done.
    by rewrite merge_tools_snoc, Object_assign_lookup, HB.
  - change [A; B] with ([A] ++ [B]).
    by rewrite merge_tools_snoc, Object_assign_lookup, HB.
Qed.

Lemma merge_tools_last_write_wins_witness :
  let toolA := {| description := Some "from A"; inputSchema := jsonSchema (JObj []);
                  execute := 1 |} in
  let toolB := {| description := Some "from B"; inputSchema := jsonSchema (JObj []);
                  execute := 2 |} in
  let A := {| name := "a"; client := 0; tools := {[ "t" := toolA; "only_a" := toolA ]} |} in
  let B := {| name := "b"; client := 1; tools := {[ "t" := toolB ]} |} in
  merge_tools [A; B] !! "t" = Some toolB.
Proof.
  intros toolA toolB A B.
  apply (merge_tools_last_write_wins [] [] [] A B "t" toolA toolB);
    [reflexivity | reflexivity | constructor].
Defined.

(** ** The decision loop *)

Lemma console_app (t1 t2 : list Event) : console (t1 ++ t2) = console t1 ++ console t2.
Proof. apply omap_app. Qed.

Lemma invocations_app (t1 t2 : list Event) :
  invocations (t1 ++ t2) = invocations t1 ++ invocations t2.
Proof. apply omap_app. Qed.

Lemma console_lines (lines : list LogLine) : console (EvLog <$> lines) = lines.
Proof. induction lines as [ | l lines IH ]; [done | ]. cbn. by f_equal. Qed.

Lemma invocations_lines (lines : list LogLine) : invocations (EvLog <$> lines) = [].
Proof. by induction lines. Qed.

Lemma invocations_generate args (t : list Event) :
  invocations (EvGenerateText args :: t) = args :: invocations t.
Proof. reflexivity. Qed.

Lemma invocations_log line (t : list Event) :
  invocations (EvLog line :: t) = invocations t.
Proof. reflexivity. Qed.

Lemma console_generate args (t : list Event) :
  console (EvGenerateText args :: t) = console t.
Proof. reflexivity. Qed.

Lemma console_log line (t : list Event) :
  console (EvLog line :: t) = line :: console t.
Proof. reflexivity. Qed.

Lemma submit_lines_hasSubmitDecision (steps : list Step) :
  existsb is_submit_line (step_lines steps) = hasSubmitDecision steps.
Proof.
  unfold step_lines, hasSubmitDecision.
  induction steps as [ | step steps IH ]; [done | ].
  cbn [flat_map existsb]. rewrite existsb_app, IH. f_equal.
  induction (toolCalls step) as [ | c calls IHc ]; [done | ].
  cbn [map existsb]. rewrite IHc. f_equal.
  by destruct (String.eqb_spec (toolName c) SUBMIT_TOOL) as [-> | Hne].
Qed.

Lemma step_lines_not_warning (steps : list Step) :
  existsb is_warning_line (step_lines steps) = false.
Proof.
  apply existsb_false_Forall, Forall_forall. intros line Hin.
  unfold step_lines in Hin. apply list_elem_of_In, in_flat_map in Hin as (step & _ & Hin).
  apply in_map_iff in Hin as (c & <- & _). by destruct (String.eqb _ _).
Qed.

Lemma step_lines_not_retry (steps : list Step) :
  existsb is_retry_line (step_lines steps) = false.
Proof.
  apply existsb_false_Forall, Forall_forall. intros line Hin.
  unfold step_lines in Hin. apply list_elem_of_In, in_flat_map in Hin as (step & _ & Hin).
  apply in_map_iff in Hin as (c & <- & _). by destruct (String.eqb _ _).
Qed.

Section StrategyLemmas.
Context {World : Type} `{!Externals World}.
Implicit Types m : Machine World.

Lemma record_all_nil m : record_all [] m = m.
Proof. destruct m. unfold record_all. simpl. by rewrite app_nil_r. Qed.

Lemma record_all_record ev evs m :
  record_all evs (record ev m) = record_all (ev :: evs) m.
Proof. unfold record_all, record. simpl. by rewrite <- app_assoc. Qed.

Lemma record_all_app evs1 evs2 m :
  record_all evs2 (record_all evs1 m) = record_all (evs1 ++ evs2) m.
Proof. unfold record_all. simpl. by rewrite <- app_assoc. Qed.

Lemma logSteps_run steps m :
  logSteps steps m = (Ok tt, record_all (EvLog <$> step_lines steps) m).
Proof.
  unfold logSteps, step_lines. revert m.
  induction steps as [ | step steps IH ]; intros m; cbn [for_of flat_map].
  - by rewrite record_all_nil.
  - unfold bind at 1.
    assert (forall calls m0,
      for_of calls (fun call =>
        if String.eqb call.(toolName) SUBMIT_TOOL
        then log (LogToolCall call.(toolName) (Some call.(input)))
        else log (LogToolCall call.(toolName) None)) m0 =
      (Ok tt, record_all (EvLog <$> map (fun call =>
        if String.eqb call.(toolName) SUBMIT_TOOL
        then LogToolCall call.(toolName) (Some call.(input))
        else LogToolCall call.(toolName) None) calls) m0)) as Hinner.
    { clear. induction calls as [ | c calls IHc ]; intros m0; cbn [for_of map].
      - by rewrite record_all_nil.
      - unfold bind.
        destruct (String.eqb (toolName c) SUBMIT_TOOL); unfold log;
          by rewrite IHc, record_all_record. }
    rewrite Hinner, IH, record_all_app. by rewrite fmap_app.
Qed.

(** One turn of the loop, by the outcome of the invocation. *)
Lemma attempts_step model tools config attempt later locals m :
  attempts model tools config (attempt :: later) locals m =
  let args := generate_args model tools config locals in
  match generateText args (world m) with
  | (Throw e, w) =>
      (Throw e, {| world := w; trace := trace m ++ [EvGenerateText args] |})
  | (Ok result, w) =>
      let m1 := {| world := w;
                   trace := trace m ++ EvGenerateText args
                              :: (EvLog <$> step_lines result.(steps)) |} in
      let counted := count_result locals result in
      if hasSubmitDecision result.(steps) then (Ok counted, m1)
      else if (attempt <? MAX_ATTEMPTS)%nat then
        attempts model tools config later (push_retry counted result)
          (record (EvLog (LogRetry attempt)) m1)
      else
        attempts model tools config later counted
          (record (EvLog (LogWarningNoSubmit MAX_ATTEMPTS)) m1)
  end.
Proof.
  cbn [attempts]. unfold bind at 1, call.
  destruct (generateText _ (world m)) as [[result | e] w]; [ | done].
  unfold bind at 1. rewrite logSteps_run.
  unfold record_all; cbn [world trace]. rewrite <- app_assoc. cbn [app].
  destruct (hasSubmitDecision (steps result)); [done | ].
  by destruct (attempt <? MAX_ATTEMPTS)%nat.
Qed.

Lemma nudges_length texts : length (nudges texts) = 2 * length texts.
Proof. induction texts as [ | t texts IH ]; simpl; lia. Qed.

(** The loop when no invocation submits: it runs every remaining
    attempt and returns. *)
Lemma attempts_exhaust model tools config :
  never_submits ->
  forall n a locals m,
    a + n = S MAX_ATTEMPTS ->
    exists locals' m' delta texts,
      attempts model tools config (seq a n) locals m = (Ok locals', m') /\
      trace m' = trace m ++ delta /\
      length (invocations delta) = n /\
      submitted delta = false /\
      (0 < n -> warned_no_submit delta = true) /\
      length texts = n - 1 /\
      messages locals' = messages locals ++ nudges texts.
Proof.
  intros Hnever. induction n as [ | n IH ]; intros a locals m Han.
  - exists locals, m, [], []. rewrite app_nil_r.
    split_and!; try done; [lia | cbn; by rewrite app_nil_r].
  - cbn [seq]. rewrite attempts_step. cbn zeta.
    destruct (Hnever (generate_args model tools config locals) (world m))
      as (result & w & -> & Hno).
    rewrite Hno.
    set (args := generate_args model tools config locals).
    set (lines := step_lines (steps result)).
    destruct (a <? MAX_ATTEMPTS)%nat eqn:Hlast.
    + apply Nat.ltb_lt in Hlast.
      edestruct (IH (S a) (push_retry (count_result locals result) result))
        as (locals' & m' & delta & texts & -> & Htrace & Hinv & Hsub & Hwarn & Hlen & Hmsg);
        [lia | ].
      exists locals', m',
        (EvGenerateText args :: (EvLog <$> lines) ++ EvLog (LogRetry a) :: delta),
        (text result :: texts).
      split_and!; [done | | | | | | ].
      * rewrite Htrace. cbn [record trace]. by rewrite <- !app_assoc.
      * rewrite invocations_generate, invocations_app, invocations_lines,
          invocations_log. cbn [app length]. by rewrite Hinv.
      * unfold submitted in *.
        rewrite console_generate, console_app, console_lines, console_log,
          existsb_app. cbn [existsb is_submit_line]. rewrite Hsub.
        unfold lines. by rewrite submit_lines_hasSubmitDecision, Hno.
      * intros _. unfold warned_no_submit in *.
        rewrite console_generate, console_app, console_lines, console_log,
          existsb_app. cbn [existsb is_warning_line].
        rewrite Hwarn by lia. apply orb_true_r.
      * cbn [length]. lia.
      * rewrite Hmsg. cbn [nudges flat_map push_retry count_result messages].
        by rewrite <- !app_assoc.
    + apply Nat.ltb_ge in Hlast. assert (n = 0) as -> by lia. cbn [seq attempts ret].
      eexists _, _, (EvGenerateText args :: (EvLog <$> lines)
                       ++ [EvLog (LogWarningNoSubmit MAX_ATTEMPTS)]), [].
      split_and!; [done | | | | | | ].
      * cbn [record trace]. by rewrite <- !app_assoc.
      * by rewrite invocations_generate, invocations_app, invocations_lines.
      * unfold submitted.
        rewrite console_generate, console_app, console_lines, existsb_app.
        unfold lines. by rewrite submit_lines_hasSubmitDecision, Hno.
      * intros _. unfold warned_no_submit.
        rewrite console_generate, console_app, console_lines, existsb_app.
        apply orb_true_r.
      * done.
      * cbn. by rewrite app_nil_r.
Qed.

Lemma MAX_ATTEMPTS_positive : 0 < MAX_ATTEMPTS.
Proof. unfold MAX_ATTEMPTS. lia. Qed.

(** C3: with a model that never emits a call of [submit_decision],
    [runConfigStrategy] returns normally after exactly [MAX_ATTEMPTS]
    invocations of the model; the conversation is the seeded message
    followed by an assistant echo and a corrective user message for each
    attempt but the last, [2 * (MAX_ATTEMPTS - 1)] messages in all; and the
    console reports no submission but the warning. *)
Theorem runConfigStrategy_exhaustion env tools config model m :
  getModel env config = Ok model ->
  never_submits ->
  exists locals m' delta texts,
    runConfigStrategy env tools config m = (Ok locals, m') /\
    trace m' = trace m ++ delta /\
    length (invocations delta) = MAX_ATTEMPTS /\
    messages locals = seed_message :: nudges texts /\
    length texts = MAX_ATTEMPTS - 1 /\
    length (messages locals) = 1 + 2 * (MAX_ATTEMPTS - 1) /\
    submitted delta = false /\
    warned_no_submit delta = true.
Proof.
  intros Hmodel Hnever. unfold runConfigStrategy. rewrite Hmodel.
  destruct (attempts_exhaust model tools config Hnever MAX_ATTEMPTS 1 initial_locals m)
    as (locals & m1 & delta & texts & Hrun & Htrace & Hinv & Hsub & Hwarn & Hlen & Hmsg);
    [lia | ].
  exists locals, (record (EvLog (LogCompleted (totalSteps locals) (totalToolCalls locals))) m1),
    (delta ++ [EvLog (LogCompleted (totalSteps locals) (totalToolCalls locals))]), texts.
  split_and!.
  - unfold bind at 1. rewrite Hrun. reflexivity.
  - cbn [record trace]. by rewrite Htrace, <- app_assoc.
  - rewrite invocations_app. cbn. by rewrite app_nil_r.
  - by rewrite Hmsg.
  - done.
  - rewrite Hmsg. cbn [initial_locals messages app length].
    rewrite nudges_length, Hlen. lia.
  - unfold submitted in *. rewrite console_app, existsb_app, Hsub. reflexivity.
  - unfold warned_no_submit in *. rewrite console_app, existsb_app.
    by rewrite (Hwarn MAX_ATTEMPTS_positive).
Qed.

(** C4: when the first invocation of the model emits a call of
    [submit_decision], [runConfigStrategy] returns after exactly that one
    invocation, the console reports the submission (and neither a retry
    nor the warning), and the conversation is the seeded message alone. *)
Theorem runConfigStrategy_first_attempt_success
    env tools config model m result w :
  getModel env config = Ok model ->
  generateText (generate_args model tools config initial_locals) (world m)
    = (Ok result, w) ->
  hasSubmitDecision result.(steps) = true ->
  exists locals m' delta,
    runConfigStrategy env tools config m = (Ok locals, m') /\
    trace m' = trace m ++ delta /\
    invocations delta = [ generate_args model tools config initial_locals ] /\
    messages locals = [ seed_message ] /\
    submitted delta = true /\
    retried delta = false /\
    warned_no_submit delta = false.
Proof.
  intros Hmodel Hfirst Hsubmit. unfold runConfigStrategy. rewrite Hmodel.
  replace (seq 1 MAX_ATTEMPTS) with (1 :: seq 2 (MAX_ATTEMPTS - 1)) by reflexivity.
  unfold bind at 1. rewrite attempts_step. cbn zeta. rewrite Hfirst, Hsubmit.
  set (args := generate_args model tools config initial_locals).
  set (locals := count_result initial_locals result).
  set (done_line := EvLog (LogCompleted (totalSteps locals) (totalToolCalls locals))).
  exists locals, (record done_line
                    {| world := w;
                       trace := trace m ++ EvGenerateText args
                                  :: (EvLog <$> step_lines (steps result)) |}),
    (EvGenerateText args :: (EvLog <$> step_lines (steps result)) ++ [done_line]).
  split_and!.
  - reflexivity.
  - cbn [record trace]. by rewrite <- app_assoc.
  - by rewrite invocations_generate, invocations_app, invocations_lines.
  - reflexivity.
  - unfold submitted.
    rewrite console_generate, console_app, console_lines, existsb_app.
    by rewrite submit_lines_hasSubmitDecision, Hsubmit.
  - unfold retried.
    rewrite console_generate, console_app, console_lines, existsb_app.
    by rewrite step_lines_not_retry.
  - unfold warned_no_submit.
    rewrite console_generate, console_app, console_lines, existsb_app.
    by rewrite step_lines_not_warning.
Qed.
End StrategyLemmas.

Lemma runConfigStrategy_exhaustion_witness :
  exists locals m' delta texts,
    runConfigStrategy (Externals0 := idle_world) example_env ∅ example_config start
      = (Ok locals, m') /\
    trace m' = trace start ++ delta /\
    length (invocations delta) = MAX_ATTEMPTS /\
    messages locals = seed_message :: nudges texts /\
    length texts = MAX_ATTEMPTS - 1 /\
    length (messages locals) = 1 + 2 * (MAX_ATTEMPTS - 1) /\
    submitted delta = false /\
    warned_no_submit delta = true.
Proof.
  apply (runConfigStrategy_exhaustion (Externals0 := idle_world)
           example_env ∅ example_config (OpenAIModel "k" "gpt") start).
  - reflexivity.
  - intros args w. exists idle_result, (S w). split; reflexivity.
Defined.

Lemma runConfigStrategy_first_attempt_success_witness :
  exists locals m' delta,
    runConfigStrategy (Externals0 := compliant_world) example_env ∅ example_config start
      = (Ok locals, m') /\
    trace m' = trace start ++ delta /\
    invocations delta
      = [ generate_args (OpenAIModel "k" "gpt") ∅ example_config initial_locals ] /\
    messages locals = [ seed_message ] /\
    submitted delta = true /\
    retried delta = false /\
    warned_no_submit delta = false.
Proof.
  apply (runConfigStrategy_first_attempt_success (Externals0 := compliant_world)
           example_env ∅ example_config (OpenAIModel "k" "gpt") start submit_result 1);
    reflexivity.
Defined.

(** ** Teardown *)

Section TeardownLemmas.
Context {World : Type} `{!Externals World}.
Implicit Types m : Machine World.

Lemma logSteps_no_close steps :
  appends not_close (logSteps (World := World) steps).
Proof.
  apply appends_for_of. intros step. apply appends_for_of. intros c.
  destruct (String.eqb _ _); apply appends_log; by intros [].
Qed.

Lemma attempts_no_close model tools config todo locals :
  appends not_close (attempts model tools config todo locals).
Proof.
  revert locals. induction todo as [ | attempt later IH ]; intros locals;
    cbn [attempts].
  - apply appends_ret.
  - apply appends_bind; [apply appends_call; by intros [] | ]. intros result.
    apply appends_bind; [apply logSteps_no_close | ]. intros _.
    destruct (hasSubmitDecision _); [apply appends_ret | ].
    destruct (_ <? _)%nat;
      (apply appends_bind; [apply appends_log; by intros [] | intros _; apply IH]).
Qed.

Lemma runConfigStrategy_no_close env tools config :
  appends not_close (runConfigStrategy env tools config).
Proof.
  unfold runConfigStrategy. destruct (getModel env config); [ | apply appends_throw].
  apply appends_bind; [apply attempts_no_close | ]. intros locals.
  apply appends_bind; [apply appends_log; by intros [] | ]. intros _.
  apply appends_ret.
Qed.

Lemma close_servers_cons s servers m :
  close_servers (s :: servers) m =
  match client_close (client s) (world m) with
  | (Ok _, w) =>
      close_servers servers {| world := w; trace := trace m ++ [EvClose (client s)] |}
  | (Throw e, w) =>
      (Throw e, {| world := w; trace := trace m ++ [EvClose (client s)] |})
  end.
Proof.
  unfold close_servers. cbn [for_of]. unfold bind at 1, call.
  by destruct (client_close (client s) (world m)) as [[[] | e] w].
Qed.

(** The [finally] block closes the servers in order and stops at the
    first [close] that throws. *)
Lemma close_servers_run servers m :
  exists k,
    k <= length servers /\
    trace (close_servers servers m).2
      = trace m ++ (EvClose <$> take k (client <$> servers)) /\
    (k < length servers -> exists e, (close_servers servers m).1 = Throw e) /\
    (closes_succeed -> k = length servers /\ (close_servers servers m).1 = Ok tt).
Proof.
  revert m. induction servers as [ | s servers IH ]; intros m.
  - exists 0. cbn. rewrite app_nil_r. split_and!; [lia | done | lia | done].
  - rewrite close_servers_cons.
    destruct (client_close (client s) (world m)) as [[[] | e] w] eqn:Hclose.
    + destruct (IH {| world := w; trace := trace m ++ [EvClose (client s)] |})
        as (k & Hk & Htrace & Hthrow & Hok).
      exists (S k). split_and!.
      * cbn. lia.
      * rewrite Htrace. cbn. by rewrite <- app_assoc.
      * intros Hlt. apply Hthrow. cbn in Hlt. lia.
      * intros Hall. destruct (Hok Hall) as [-> Hres]. by split.
    + exists 1. split_and!.
      * cbn. lia.
      * cbn. by rewrite take_0.
      * intros _. by exists e.
      * intros Hall. destruct (Hall (client s) (world m)) as [w' Hw'].
        congruence.
Qed.

Lemma closed_clients_log line : closed_clients [EvLog line] = [].
Proof. reflexivity. Qed.

Lemma closed_clients_closes (clients : list Client) :
  closed_clients (EvClose <$> clients) = clients.
Proof. induction clients as [ | c clients IH ]; [done | ]. cbn. by f_equal. Qed.

End TeardownLemmas.



(** ** More about the sanitizer *)




Lemma existsb_true_Exists {A} (f : A -> bool) (l : list A) :
  existsb f l = true <-> Exists (fun x => f x = true) l.
Proof.
  induction l as [ | x l IH ]; simpl.
  - split; [done | by intros ?%Exists_nil].
  - rewrite orb_true_iff, IH, Exists_cons. done.
Qed.

Lemma mentions_entry key k v fields :
  (k, v) ∈ fields ->
  String.eqb k key || mentions key v = true ->
  mentions key (JObj fields) = true.
Proof.
  intros Hin Hkv. simpl. apply existsb_true_Exists, Exists_exists.
  by exists (k, v).
Qed.

Lemma sanitize_only_removes_all key v :
  (mentions key (sanitizeObject v) = true -> mentions key v = true) /\
  (mentions key (sanitizeItem sanitizeObject v) = true -> mentions key v = true) /\
  (mentions key (sanitizeValue sanitizeObject v) = true -> mentions key v = true).
Proof.
  induction v as [ | b | n | s | items IH | fields IH ] using json_nested_ind;
    try done.
  - split_and!; [done | done | ]. simpl.
    rewrite !existsb_true_Exists, Exists_fmap, !Exists_exists.
    intros (item & Hin & Hitem). exists item. split; [done | ].
    rewrite Forall_forall in IH. destruct (IH item Hin) as (_ & Hi & _).
    by apply Hi.
  - assert (mentions key (sanitizeObject (JObj fields)) = true ->
            mentions key (JObj fields) = true) as Hobj; [ | done].
    rewrite sanitizeObject_unfold. intros Hout.
    assert (Forall (fun kv => String.eqb kv.1 key || mentions key kv.2 = true ->
                              mentions key (JObj fields) = true)
              (sanitizeSchema fields)) as Hall.
    { apply sanitize_fold_invariant; [constructor | ].
      apply Forall_forall. intros [k v] Hin _. cbn [fst snd].
      rewrite Forall_forall in IH. destruct (IH (k, v) Hin) as (_ & _ & Hval).
      cbn [snd] in Hval.
      intros [Hk | Hv]%orb_true_iff; apply (mentions_entry key k v); try done.
      - by rewrite Hk.
      - rewrite (Hval Hv). apply orb_true_r. }
    simpl in Hout. apply existsb_true_Exists, Exists_exists in Hout
      as ([k v] & Hin & Hkv).
    rewrite Forall_forall in Hall. by apply (Hall (k, v)).
Qed.

(** X2: [sanitizeSchema] only removes: a key that some mapping node of the
    output has, at any depth, is a key of some mapping node of the input.
    So a key that occurs nowhere in the input occurs nowhere in the
    output. *)
Theorem sanitizeSchema_introduces_no_key (schema : Record) (key : string) :
  mentions key (JObj schema) = false ->
  mentions key (JObj (sanitizeSchema schema)) = false.
Proof.
  intros Habsent. destruct (mentions key (JObj (sanitizeSchema schema))) eqn:Hout;
    [ | done].
  rewrite <- sanitizeObject_unfold in Hout.
  apply (sanitize_only_removes_all key (JObj schema)) in Hout. congruence.
Qed.

Lemma sanitizeSchema_introduces_no_key_witness :
  mentions "title"
    (JObj (sanitizeSchema
             [ ("type", JStr "object"); ("default", JObj [ ("a", JNum 1) ]);
               ("anyOf", JArr [ JArr [ JObj [ ("format", JNull) ] ] ]) ])) = false.
Proof. by apply sanitizeSchema_introduces_no_key. Defined.

(** ** More about [sanitizeTools] *)

Lemma sanitizeSchema_twice (schema : Record) :
  sanitizeSchema (sanitizeSchema schema) = sanitizeSchema schema.
Proof.
  destruct (sanitize_idempotent_all (JObj schema)) as [Hobj _].
  rewrite !sanitizeObject_unfold in Hobj. by injection Hobj.
Qed.

Lemma sanitizeTool_twice (tool : Tool) :
  sanitizeTool (sanitizeTool tool) = sanitizeTool tool.
Proof.
  destruct tool as [d [raw] x]. unfold sanitizeTool at 2. cbn.
  destruct raw as [[ | [] | [ | p | p ] | [ | c s ] | items | fields ] | ];
    cbn; try reflexivity.
  all: unfold sanitizeTool; cbn.
  all: do 3 f_equal; apply sanitizeSchema_twice.
Qed.

(** X3: [sanitizeTools] is idempotent: sanitizing the tool set a second
    time changes nothing. *)
Theorem sanitizeTools_idempotent (tools : ToolSet) :
  sanitizeTools (sanitizeTools tools) = sanitizeTools tools.
Proof.
  rewrite !sanitizeTools_fmap, <- map_fmap_compose.
  apply map_fmap_ext. intros name tool _. apply sanitizeTool_twice.
Qed.

(** X4: [sanitizeTools] touches nothing but the schema: the tool it stores
    under a name has the description and the handler of the input tool of
    that name, and it stores a tool under no other name. *)
Theorem sanitizeTools_keeps_handler (tools : ToolSet) (name : string) (tool' : Tool) :
  sanitizeTools tools !! name = Some tool' ->
  exists tool,
    tools !! name = Some tool /\
    description tool' = description tool /\
    execute tool' = execute tool.
Proof.
  rewrite sanitizeTools_lookup. destruct (tools !! name) as [tool | ]; [ | done].
  intros [= <-]. exists tool. split; [done | ].
  unfold sanitizeTool. by destruct (_ || _).
Qed.

Lemma sanitizeTools_keeps_handler_witness :
  exists tool,
    ({[ "get_prices" := price_tool ]} : ToolSet) !! "get_prices" = Some tool /\
    description (sanitizeTool price_tool) = description tool /\
    execute (sanitizeTool price_tool) = execute tool.
Proof.
  apply (sanitizeTools_keeps_handler {[ "get_prices" := price_tool ]} "get_prices").
  reflexivity.
Defined.

(** X5: after [sanitizeTools], the schema of no tool has a denylisted key
    in a mapping node that the sanitizer visits. *)
Theorem sanitizeTools_schemas_stripped
    (tools : ToolSet) (name key : string) (tool' : Tool) (raw : json) :
  sanitizeTools tools !! name = Some tool' ->
  jsonSchema_prop (asSchema (inputSchema tool')) = Some raw ->
  STRIP_KEYS_has key = true ->
  mentions_visited key raw = false.
Proof.
  rewrite sanitizeTools_lookup. destruct (tools !! name) as [tool | ]; [ | done].
  intros [= <-] Hraw Hkey. destruct tool as [d [old] x].
  unfold sanitizeTool, asSchema in Hraw.
  destruct old as [[ | [] | [ | p | p ] | [ | c s ] | items | fields ] | ];
    cbn [inputSchema jsonSchema_prop falsy typeof_object orb negb as_record
         jsonSchema] in Hraw;
    simplify_eq; try reflexivity;
    rewrite <- sanitizeObject_unfold; by apply sanitize_strips_visited.
Qed.

Lemma sanitizeTools_schemas_stripped_witness :
  let tool := {| description := None;
                 inputSchema := jsonSchema (JObj [ ("type", JStr "object");
                   ("properties", JObj [ ("n", JObj [ ("default", JNum 1) ]) ]) ]);
                 execute := 7 |} in
  mentions_visited "default"
    (JObj [ ("type", JStr "object"); ("properties", JObj [ ("n", JObj [] ) ]) ]) = false.
Proof.
  intros tool.
  apply (sanitizeTools_schemas_stripped {[ "t" := tool ]} "t" "default" (sanitizeTool tool));
    reflexivity.
Defined.

(** ** More about the decision loop *)

Section StrategyExtras.
Context {World : Type} `{!Externals World}.
Implicit Types m : Machine World.

(** Induction that follows the cases of the loop. *)
Lemma attempts_cases model tools config
    (Φ : list nat -> Locals -> Machine World ->
         Result Locals * Machine World -> Prop) :
  (forall locals m, Φ [] locals m (Ok locals, m)) ->
  (forall attempt later locals m e w,
     generateText (generate_args model tools config locals) (world m) = (Throw e, w) ->
     Φ (attempt :: later) locals m
       (Throw e, {| world := w;
                    trace := trace m
                      ++ [EvGenerateText (generate_args model tools config locals)] |})) ->
  (forall attempt later locals m result w,
     generateText (generate_args model tools config locals) (world m) = (Ok result, w) ->
     hasSubmitDecision result.(steps) = true ->
     Φ (attempt :: later) locals m
       (Ok (count_result locals result),
        {| world := w;
           trace := trace m
             ++ EvGenerateText (generate_args model tools config locals)
                :: (EvLog <$> step_lines result.(steps)) |})) ->
  (forall attempt later locals m result w out,
     generateText (generate_args model tools config locals) (world m) = (Ok result, w) ->
     hasSubmitDecision result.(steps) = false ->
     let note := if (attempt <? MAX_ATTEMPTS)%nat then LogRetry attempt
                 else LogWarningNoSubmit MAX_ATTEMPTS in
     let next := if (attempt <? MAX_ATTEMPTS)%nat
                 then push_retry (count_result locals result) result
                 else count_result locals result in
     Φ later next
       {| world := w;
          trace := trace m
            ++ EvGenerateText (generate_args model tools config locals)
               :: (EvLog <$> step_lines result.(steps)) ++ [EvLog note] |} out ->
     Φ (attempt :: later) locals m out) ->
  forall todo locals m, Φ todo locals m (attempts model tools config todo locals m).
Proof.
  intros Hend Hthrow Hsubmit Hnext.
  induction todo as [ | attempt later IH ]; intros locals m.
  - apply Hend.
  - rewrite attempts_step. cbn zeta.
    destruct (generateText _ (world m)) as [[result | e] w] eqn:Hcall.
    + destruct (hasSubmitDecision (steps result)) eqn:Hsub.
      * by apply Hsubmit.
      * apply (Hnext attempt later locals m result w); [done | done | ].
        cbn zeta. destruct (attempt <? MAX_ATTEMPTS)%nat;
          match goal with
          | |- Φ _ _ ?ma (attempts _ _ _ _ _ ?mb) =>
              replace mb with ma
                by (unfold record; cbn [world trace];
                    by rewrite <- app_assoc)
          end; apply IH.
    + by apply Hthrow.
Qed.

Lemma invocations_turn args lines note (delta : list Event) :
  invocations (EvGenerateText args :: (EvLog <$> lines) ++ [EvLog note] ++ delta)
  = args :: invocations delta.
Proof.
  by rewrite invocations_generate, invocations_app, invocations_lines,
    invocations_app.
Qed.

Lemma console_turn args lines note (delta : list Event) :
  console (EvGenerateText args :: (EvLog <$> lines) ++ [EvLog note] ++ delta)
  = lines ++ note :: console delta.
Proof.
  by rewrite console_generate, console_app, console_lines, console_app.
Qed.

Lemma given_weaken model tools config shorter longer args :
  shorter `prefix_of` longer ->
  given model tools config longer args -> given model tools config shorter args.
Proof.
  intros Hpre (? & ? & ? & ? & Hmsg). split_and!; try done. by etrans.
Qed.

Lemma count_push_prefix locals result note_retry :
  messages locals `prefix_of`
  messages (if note_retry : bool then push_retry (count_result locals result) result
            else count_result locals result).
Proof.
  destruct note_retry; cbn [push_retry count_result messages]; [ | done].
  by apply prefix_app_r.
Qed.

Lemma attempts_invocations model tools config todo locals m :
  exists delta,
    trace (attempts model tools config todo locals m).2 = trace m ++ delta /\
    length (invocations delta) <= length todo /\
    Forall (given model tools config (messages locals)) (invocations delta) /\
    nested_prefixes (arg_messages <$> invocations delta).
Proof.
  revert todo locals m.
  apply (attempts_cases model tools config (fun todo locals m out =>
    exists delta,
      trace out.2 = trace m ++ delta /\
      length (invocations delta) <= length todo /\
      Forall (given model tools config (messages locals)) (invocations delta) /\
      nested_prefixes (arg_messages <$> invocations delta))).
  - intros locals m. exists []. rewrite app_nil_r. by split_and!; cbn; try lia.
  - intros attempt later locals m e w _. eexists [_]. cbn [snd trace].
    split_and!; [done | cbn; lia | | by cbn].
    by do 2 constructor.
  - intros attempt later locals m result w _ _. eexists (_ :: _). cbn [snd trace].
    split_and!; [done | | | ].
    + rewrite invocations_generate, invocations_lines. cbn. lia.
    + rewrite invocations_generate, invocations_lines. by do 2 constructor.
    + rewrite invocations_generate, invocations_lines. by cbn.
  - intros attempt later locals m result w out _ _ note next
      (delta & Htrace & Hlen & Hgiven & Hnested).
    cbn [trace] in Htrace.
    exists (EvGenerateText (generate_args model tools config locals)
              :: (EvLog <$> step_lines (steps result)) ++ [EvLog note] ++ delta).
    assert (messages locals `prefix_of` messages next) as Hpre
      by apply count_push_prefix.
    rewrite invocations_turn. split_and!.
    + rewrite Htrace. rewrite <- !app_assoc. cbn [app]. by rewrite <- app_assoc.
    + cbn. lia.
    + constructor; [by split_and! | ].
      eapply Forall_impl; [exact Hgiven | ]. intros a. by apply given_weaken.
    + cbn. split; [ | done]. apply Forall_fmap.
      eapply Forall_impl; [exact Hgiven | ]. intros a (_ & _ & _ & _ & Hmsg).
      cbn. by etrans.
Qed.

(** X6: whatever the model does, [runConfigStrategy] invokes it at most
    [MAX_ATTEMPTS] times. *)
Theorem runConfigStrategy_bounded env tools config m :
  exists delta,
    trace (runConfigStrategy env tools config m).2 = trace m ++ delta /\
    length (invocations delta) <= MAX_ATTEMPTS.
Proof.
  unfold runConfigStrategy. destruct (getModel env config) as [model | e].
  - destruct (attempts_invocations model tools config (seq 1 MAX_ATTEMPTS)
                initial_locals m) as (delta & Htrace & Hlen & _).
    rewrite length_seq in Hlen. unfold bind at 1.
    destruct (attempts _ _ _ _ _ m) as [[locals | e] m1]; cbn [snd] in *.
    + exists (delta ++ [EvLog (LogCompleted (totalSteps locals) (totalToolCalls locals))]).
      cbn. rewrite Htrace, <- app_assoc. split; [done | ].
      rewrite invocations_app. cbn. by rewrite app_nil_r.
    + by exists delta.
  - exists []. cbn. by rewrite app_nil_r; split; [ | lia].
Qed.

Lemma runConfigStrategy_invocation_arguments_aux env tools config model m :
  getModel env config = Ok model ->
  exists delta,
    trace (runConfigStrategy env tools config m).2 = trace m ++ delta /\
    Forall (given model tools config [ seed_message ]) (invocations delta).
Proof.
  intros Hmodel. unfold runConfigStrategy. rewrite Hmodel.
  destruct (attempts_invocations model tools config (seq 1 MAX_ATTEMPTS)
              initial_locals m) as (delta & Htrace & _ & Hgiven & _).
  unfold bind at 1.
  destruct (attempts _ _ _ _ _ m) as [[locals | e] m1]; cbn [snd] in *.
  - exists (delta ++ [EvLog (LogCompleted (totalSteps locals) (totalToolCalls locals))]).
    cbn. rewrite Htrace, <- app_assoc, invocations_app. cbn. by rewrite app_nil_r.
  - by exists delta.
Qed.

(** X7: every invocation of one run is given the same model handle, the
    same tools, the system prompt of the configuration and the step
    ceiling 10; its conversation starts with the seeded message and
    extends the conversation of every earlier invocation. *)
Theorem runConfigStrategy_invocation_arguments env tools config model m :
  getModel env config = Ok model ->
  exists delta,
    trace (runConfigStrategy env tools config m).2 = trace m ++ delta /\
    Forall (given model tools config [ seed_message ]) (invocations delta) /\
    nested_prefixes (arg_messages <$> invocations delta).
Proof.
  intros Hmodel. unfold runConfigStrategy. rewrite Hmodel.
  destruct (attempts_invocations model tools config (seq 1 MAX_ATTEMPTS)
              initial_locals m) as (delta & Htrace & _ & Hgiven & Hnested).
  unfold bind at 1.
  destruct (attempts _ _ _ _ _ m) as [[locals | e] m1]; cbn [snd] in *.
  - exists (delta ++ [EvLog (LogCompleted (totalSteps locals) (totalToolCalls locals))]).
    cbn. rewrite Htrace, <- app_assoc, invocations_app. cbn. by rewrite app_nil_r.
  - by exists delta.
Qed.

Lemma filter_none {A} (f : A -> bool) (l : list A) :
  existsb f l = false -> List.filter f l = [].
Proof.
  induction l as [ | x l IH ]; [done | ]. cbn.
  intros [Hx Hl]%orb_false_iff. rewrite Hx. by apply IH.
Qed.

Lemma fold_left_tool_calls (steps : list Step) (n : nat) :
  fold_left (fun n s => n + length s.(toolCalls)) steps n
  = n + sum_list_with (fun step => length step.(toolCalls)) steps.
Proof.
  revert n. induction steps as [ | step steps IH ]; intros n; cbn; [lia | ].
  rewrite IH. lia.
Qed.

Lemma step_lines_tool_calls (steps : list Step) :
  length (List.filter is_tool_call_line (step_lines steps))
  = sum_list_with (fun step => length step.(toolCalls)) steps.
Proof.
  unfold step_lines. induction steps as [ | step steps IH ]; [done | ].
  cbn [flat_map sum_list_with]. rewrite List.filter_app, length_app, IH. f_equal.
  induction (toolCalls step) as [ | c calls IHc ]; [done | ].
  cbn [map List.filter]. destruct (String.eqb _ _); cbn; by rewrite IHc.
Qed.

Lemma attempts_totals model tools config todo locals m locals' :
  (attempts model tools config todo locals m).1 = Ok locals' ->
  exists delta results,
    trace (attempts model tools config todo locals m).2 = trace m ++ delta /\
    Forall2 returned_for (invocations delta) results /\
    totalSteps locals'
      = totalSteps locals + sum_list_with (fun r => length r.(steps)) results /\
    totalToolCalls locals'
      = totalToolCalls locals + sum_list_with tool_calls_in results /\
    length (List.filter is_tool_call_line (console delta))
      = sum_list_with tool_calls_in results /\
    messages locals `prefix_of` messages locals' /\
    Forall (fun a => arg_messages a `prefix_of` messages locals') (invocations delta).
Proof.
  revert todo locals m locals'.
  apply (attempts_cases model tools config (fun todo locals m out =>
    forall locals', out.1 = Ok locals' ->
    exists delta results,
      trace out.2 = trace m ++ delta /\
      Forall2 returned_for (invocations delta) results /\
      totalSteps locals'
        = totalSteps locals + sum_list_with (fun r => length r.(steps)) results /\
      totalToolCalls locals'
        = totalToolCalls locals + sum_list_with tool_calls_in results /\
      length (List.filter is_tool_call_line (console delta))
        = sum_list_with tool_calls_in results /\
      messages locals `prefix_of` messages locals' /\
      Forall (fun a => arg_messages a `prefix_of` messages locals')
        (invocations delta))).
  - intros locals m locals' [= <-]. exists [], []. rewrite app_nil_r.
    split_and!; try done; cbn; lia.
  - by intros attempt later locals m e w _ locals'.
  - intros attempt later locals m result w Hcall _ locals' [= <-].
    eexists (_ :: _), [result]. cbn [snd trace].
    rewrite invocations_generate, invocations_lines, console_generate, console_lines.
    split_and!; [done | | | | | done | ].
    + constructor; [by exists (world m), w | constructor].
    + cbn. lia.
    + cbn [count_result totalToolCalls sum_list_with]. unfold tool_calls_in.
      rewrite fold_left_tool_calls. lia.
    + cbn [sum_list_with]. unfold tool_calls_in. rewrite step_lines_tool_calls. lia.
    + constructor; [done | constructor].
  - intros attempt later locals m result w out Hcall _ note next IH locals' Hout.
    destruct (IH locals' Hout)
      as (delta & results & Htrace & Hret & Hsteps & Hcalls & Hlines & Hgrow & Hmsgs).
    cbn [trace] in Htrace.
    exists (EvGenerateText (generate_args model tools config locals)
              :: (EvLog <$> step_lines (steps result)) ++ [EvLog note] ++ delta),
      (result :: results).
    assert (totalSteps next = totalSteps locals + length (steps result) /\
            totalToolCalls next = totalToolCalls locals + tool_calls_in result /\
            is_tool_call_line note = false /\
            messages locals `prefix_of` messages next)
      as (Hs & Hc & Hnote & Hpre).
    { subst next note. unfold tool_calls_in.
      destruct (attempt <? MAX_ATTEMPTS)%nat;
        cbn [push_retry count_result totalSteps totalToolCalls messages];
        rewrite fold_left_tool_calls; split_and!; try done; try lia.
      by apply prefix_app_r. }
    rewrite invocations_turn, console_turn. split_and!.
    + rewrite Htrace. rewrite <- !app_assoc. cbn [app]. by rewrite <- app_assoc.
    + constructor; [by exists (world m), w | done].
    + cbn [sum_list_with]. lia.
    + cbn [sum_list_with]. lia.
    + rewrite List.filter_app, length_app. cbn [List.filter]. rewrite Hnote.
      cbn [sum_list_with]. unfold tool_calls_in at 1.
      rewrite step_lines_tool_calls. lia.
    + by etrans.
    + constructor; [ | done]. cbn [generate_args arg_messages]. by etrans.
Qed.

Lemma runConfigStrategy_unfold env tools config model m :
  getModel env config = Ok model ->
  runConfigStrategy env tools config m =
  match attempts model tools config (seq 1 MAX_ATTEMPTS) initial_locals m with
  | (Ok locals, m1) =>
      (Ok locals,
       record (EvLog (LogCompleted (totalSteps locals) (totalToolCalls locals))) m1)
  | (Throw e, m1) => (Throw e, m1)
  end.
Proof.
  intros Hmodel. unfold runConfigStrategy. rewrite Hmodel. unfold bind at 1.
  by destruct (attempts _ _ _ _ _ m) as [[locals | e] m1].
Qed.

(** X8: when [runConfigStrategy] returns, its step total is the sum of the
    numbers of steps of the results of all invocations made, the submitting
    one included, and its tool-call total is the sum of their numbers of
    tool calls, which is also the number of tool-call lines printed; the
    last line printed reports the two totals; and the final conversation
    extends the conversation given to every invocation. *)
Theorem runConfigStrategy_totals env tools config m locals :
  (runConfigStrategy env tools config m).1 = Ok locals ->
  exists delta results,
    trace (runConfigStrategy env tools config m).2 = trace m ++ delta /\
    Forall2 returned_for (invocations delta) results /\
    totalSteps locals = sum_list_with (fun r => length r.(steps)) results /\
    totalToolCalls locals = sum_list_with tool_calls_in results /\
    length (List.filter is_tool_call_line (console delta)) = totalToolCalls locals /\
    last (console delta)
      = Some (LogCompleted (totalSteps locals) (totalToolCalls locals)) /\
    Forall (fun a => arg_messages a `prefix_of` messages locals) (invocations delta).
Proof.
  destruct (getModel env config) as [model | e] eqn:Hmodel;
    [ | by unfold runConfigStrategy; rewrite Hmodel].
  rewrite (runConfigStrategy_unfold env tools config model m Hmodel).
  pose proof (attempts_totals model tools config (seq 1 MAX_ATTEMPTS) initial_locals m)
    as Htotals.
  destruct (attempts _ _ _ _ _ m) as [[locals1 | e] m1]; [ | done].
  cbn [fst snd record trace]. intros [= <-].
  destruct (Htotals locals1 eq_refl)
    as (delta & results & Htrace & Hret & Hsteps & Hcalls & Hlines & _ & Hmsgs).
  cbn [snd initial_locals totalSteps totalToolCalls] in *.
  exists (delta ++ [EvLog (LogCompleted (totalSteps locals1) (totalToolCalls locals1))]),
    results.
  rewrite invocations_app, console_app, invocations_log, console_log.
  change (invocations []) with (@nil GenerateArgs).
  change (console []) with (@nil LogLine).
  rewrite app_nil_r, List.filter_app, length_app, last_snoc.
  cbn [List.filter is_tool_call_line length].
  split_and!; try done; [by rewrite Htrace, <- app_assoc | lia].
Qed.

Lemma attempts_thrown model tools config todo locals m e :
  (attempts model tools config todo locals m).1 = Throw e ->
  exists delta args,
    trace (attempts model tools config todo locals m).2
      = trace m ++ delta ++ [EvGenerateText args] /\
    thrown_for args e.
Proof.
  revert todo locals m e.
  apply (attempts_cases model tools config (fun todo locals m out =>
    forall e, out.1 = Throw e ->
    exists delta args,
      trace out.2 = trace m ++ delta ++ [EvGenerateText args] /\
      thrown_for args e)).
  - by intros locals m e.
  - intros attempt later locals m e w Hcall e' [= <-].
    exists [], (generate_args model tools config locals).
    split; [done | by exists (world m), w].
  - by intros attempt later locals m result w _ _ e.
  - intros attempt later locals m result w out _ _ note next IH e Hout.
    destruct (IH e Hout) as (delta & args & Htrace & Hthrown).
    cbn [trace] in Htrace.
    exists (EvGenerateText (generate_args model tools config locals)
              :: (EvLog <$> step_lines (steps result)) ++ [EvLog note] ++ delta), args.
    split; [ | done]. rewrite Htrace. rewrite <- !app_assoc. cbn [app].
    by rewrite <- !app_assoc.
Qed.

(** X10: a failure of the model backend is not retried: when
    [runConfigStrategy] throws although the model handle could be built,
    the error is the one an invocation of the model threw, and that
    invocation is the last thing the run did. *)
Theorem runConfigStrategy_invocation_failure env tools config model m e :
  getModel env config = Ok model ->
  (runConfigStrategy env tools config m).1 = Throw e ->
  exists delta args,
    trace (runConfigStrategy env tools config m).2
      = trace m ++ delta ++ [EvGenerateText args] /\
    thrown_for args e.
Proof.
  intros Hmodel. rewrite (runConfigStrategy_unfold env tools config model m Hmodel).
  pose proof (attempts_thrown model tools config (seq 1 MAX_ATTEMPTS) initial_locals m)
    as Hthrown.
  destruct (attempts _ _ _ _ _ m) as [[locals1 | e1] m1]; [done | ].
  cbn [fst snd]. intros [= <-]. by apply Hthrown.
Qed.

(** X9: when the first invocation does not submit and the second does,
    [runConfigStrategy] returns after exactly these two invocations; the
    second was given the seeded message, the echo of the first text and the
    corrective message, which is also the final conversation; the console
    shows one retry notice, the submission and no warning. *)
Theorem runConfigStrategy_second_attempt_success
    env tools config model m first second w1 w2 :
  getModel env config = Ok model ->
  generateText (generate_args model tools config initial_locals) (world m)
    = (Ok first, w1) ->
  hasSubmitDecision first.(steps) = false ->
  let retry := push_retry (count_result initial_locals first) first in
  generateText (generate_args model tools config retry) w1 = (Ok second, w2) ->
  hasSubmitDecision second.(steps) = true ->
  exists locals m' delta,
    runConfigStrategy env tools config m = (Ok locals, m') /\
    trace m' = trace m ++ delta /\
    invocations delta = [ generate_args model tools config initial_locals;
                          generate_args model tools config retry ] /\
    messages locals = [ seed_message;
                        {| role := assistant; content := first.(text) |};
                        corrective_message ] /\
    submitted delta = true /\
    List.filter is_retry_line (console delta) = [ LogRetry 1 ] /\
    warned_no_submit delta = false.
Proof.
  intros Hmodel Hfirst Hno retry Hsecond Hyes.
  unfold runConfigStrategy. rewrite Hmodel.
  replace (seq 1 MAX_ATTEMPTS) with (1 :: 2 :: seq 3 (MAX_ATTEMPTS - 2)) by reflexivity.
  unfold bind at 1. rewrite attempts_step. cbn zeta. rewrite Hfirst, Hno.
  replace (1 <? MAX_ATTEMPTS)%nat with true by reflexivity.
  rewrite attempts_step. cbn zeta. cbn [record world trace].
  fold retry. rewrite Hsecond, Hyes.
  set (a1 := generate_args model tools config initial_locals).
  set (a2 := generate_args model tools config retry).
  set (locals := count_result retry second).
  set (done_line := EvLog (LogCompleted (totalSteps locals) (totalToolCalls locals))).
  set (delta := EvGenerateText a1 :: (EvLog <$> step_lines (steps first))
                  ++ [EvLog (LogRetry 1)]
                  ++ (EvGenerateText a2 :: (EvLog <$> step_lines (steps second))
                        ++ [done_line])).
  exists locals, {| world := w2; trace := trace m ++ delta |}, delta.
  assert (List.filter is_retry_line (step_lines (steps first)) = [] /\
          List.filter is_retry_line (step_lines (steps second)) = []) as [Hr1 Hr2]
    by (split; apply filter_none, step_lines_not_retry).
  split_and!.
  - unfold bind, log, ret, record. cbn [world trace]. do 2 f_equal. subst delta.
    by repeat (rewrite <- ?app_assoc; cbn [app]; try f_equal).
  - done.
  - subst delta. rewrite invocations_turn, invocations_generate, invocations_app,
      invocations_lines. done.
  - done.
  - unfold submitted. subst delta.
    rewrite console_turn, console_generate, console_app, console_lines.
    rewrite existsb_app. cbn [existsb is_submit_line console omap].
    rewrite existsb_app, (submit_lines_hasSubmitDecision (steps second)), Hyes.
    cbn. apply orb_true_r.
  - subst delta.
    rewrite console_turn, console_generate, console_app, console_lines.
    rewrite List.filter_app. cbn [List.filter is_retry_line].
    rewrite List.filter_app, Hr1, Hr2. done.
  - unfold warned_no_submit. subst delta.
    rewrite console_turn, console_generate, console_app, console_lines.
    rewrite existsb_app. cbn [existsb is_warning_line].
    rewrite existsb_app, !step_lines_not_warning. done.
Qed.
End StrategyExtras.

Lemma runConfigStrategy_invocation_arguments_witness :
  exists delta,
    trace (runConfigStrategy (Externals0 := idle_world) example_env ∅ example_config
             start).2 = trace start ++ delta /\
    Forall (given (OpenAIModel "k" "gpt") ∅ example_config [ seed_message ])
      (invocations delta) /\
    nested_prefixes (arg_messages <$> invocations delta).
Proof.
  by apply (runConfigStrategy_invocation_arguments (Externals0 := idle_world)
              example_env ∅ example_config (OpenAIModel "k" "gpt") start).
Defined.

Lemma runConfigStrategy_totals_witness :
  exists delta results,
    trace (runConfigStrategy (Externals0 := compliant_world) example_env ∅
             example_config start).2 = trace start ++ delta /\
    Forall2 (returned_for (Externals0 := compliant_world)) (invocations delta) results /\
    2 = sum_list_with (fun r => length r.(steps)) results /\
    2 = sum_list_with tool_calls_in results /\
    length (List.filter is_tool_call_line (console delta)) = 2 /\
    last (console delta) = Some (LogCompleted 2 2) /\
    Forall (fun a => arg_messages a `prefix_of` [ seed_message ]) (invocations delta).
Proof.
  exact (runConfigStrategy_totals (Externals0 := compliant_world) example_env ∅
           example_config start
           {| messages := [ seed_message ]; totalSteps := 2; totalToolCalls := 2 |}
           eq_refl).
Defined.

Lemma runConfigStrategy_invocation_failure_witness :
  exists delta args,
    trace (runConfigStrategy (Externals0 := failing_world) example_env ∅
             example_config start).2 = trace start ++ delta ++ [EvGenerateText args] /\
    thrown_for (Externals0 := failing_world) args "503 from provider".
Proof.
  exact (runConfigStrategy_invocation_failure (Externals0 := failing_world)
           example_env ∅ example_config (OpenAIModel "k" "gpt") start
           "503 from provider" eq_refl eq_refl).
Defined.

Lemma runConfigStrategy_second_attempt_success_witness :
  exists locals m' delta,
    runConfigStrategy (Externals0 := late_world) example_env ∅ example_config start
      = (Ok locals, m') /\
    trace m' = trace start ++ delta /\
    length (invocations delta) = 2 /\
    length (messages locals) = 3 /\
    submitted delta = true.
Proof.
  destruct (runConfigStrategy_second_attempt_success (Externals0 := late_world)
              example_env ∅ example_config (OpenAIModel "k" "gpt") start
              idle_result submit_result 1 2 eq_refl eq_refl eq_refl eq_refl eq_refl)
    as (locals & m' & delta & Hrun & Htrace & Hinv & Hmsg & Hsub & _).
  exists locals, m', delta. rewrite Hinv, Hmsg. by split_and!.
Defined.

(** X11: [getModel] builds a handle exactly when [LLM_API_KEY] is set to a
    non-empty value and the provider is one of the four known ones or a
    non-empty [base_url] is configured; otherwise [runConfigStrategy]
    throws at once, having called and printed nothing. *)
Theorem getModel_succeeds_iff {World} `{!Externals World}
    env tools config (m : Machine World) :
  ((exists model, getModel env config = Ok model) <->
   env_falsy env "LLM_API_KEY" = false /\
   (provider (model config) ∈ known_providers \/
    string_falsy (base_url (model config)) = false)) /\
  (forall e, getModel env config = Throw e ->
             runConfigStrategy env tools config m = (Throw e, m)).
Proof.
  split.
  - unfold getModel, env_falsy, string_falsy, known_providers.
    destruct (env !! "LLM_API_KEY") as [key | ]; [ | by split; [intros [] | intros []]].
    destruct (String.eqb_spec key "") as [-> | Hkey];
      [by split; [intros [] | intros []] | ].
    set (p := provider (model config)).
    destruct (String.eqb_spec p "xai") as [-> | Hxai];
      [split; [intros _; split; [done | left; set_solver] | by eexists] | ].
    destruct (String.eqb_spec p "openai") as [-> | Hopenai];
      [split; [intros _; split; [done | left; set_solver] | by eexists] | ].
    destruct (String.eqb_spec p "anthropic") as [-> | Hanthropic];
      [split; [intros _; split; [done | left; set_solver] | by eexists] | ].
    destruct (String.eqb_spec p "google") as [-> | Hgoogle];
      [split; [intros _; split; [done | left; set_solver] | by eexists] | ].
    destruct (base_url (model config)) as [url | ].
    + destruct (String.eqb_spec url "") as [-> | Hurl].
      * split; [intros [? [=]] | ]. intros [_ [Hin | [=]]].
        repeat (apply elem_of_cons in Hin as [Hin | Hin]; [done | ]).
        by apply elem_of_nil in Hin.
      * split; [by intros _; split; [ | right] | by eexists].
    + split; [intros [? [=]] | ]. intros [_ [Hin | [=]]].
      repeat (apply elem_of_cons in Hin as [Hin | Hin]; [done | ]).
      by apply elem_of_nil in Hin.
  - intros e He. unfold runConfigStrategy. by rewrite He.
Qed.

(** X12: [logSteps] prints one line for each tool call of the steps, calls
    nothing and never throws; a line with the arguments of a
    [submit_decision] call is among them exactly when [hasSubmitDecision]
    holds of the steps. *)
Theorem logSteps_console {World} (steps : list Step) (m : Machine World) :
  exists delta,
    logSteps steps m = (Ok tt, {| world := world m; trace := trace m ++ delta |}) /\
    effects delta = [] /\
    length (console delta) = sum_list_with (fun step => length step.(toolCalls)) steps /\
    submitted delta = hasSubmitDecision steps.
Proof.
  exists (EvLog <$> step_lines steps). rewrite logSteps_run. split_and!.
  - done.
  - by induction (step_lines steps).
  - rewrite console_lines. unfold step_lines.
    induction steps as [ | step steps IH ]; [done | ].
    cbn [flat_map sum_list_with]. by rewrite length_app, length_map, IH.
  - unfold submitted. rewrite console_lines. apply submit_lines_hasSubmitDecision.
Qed.

(** ** More about placeholder expansion *)

(** How [expandEnvVars] treats the first character. *)
Lemma expandEnvVars_cons env c rest :
  expandEnvVars env (String c rest) =
  match c, rest with
  | "$"%char, String "{"%char r =>
      match until_brace r with
      | Some (String c' name, after) =>
          (default "" (env !! String c' name) ++ expandEnvVars env after)%string
      | _ => String "$"%char (expandEnvVars env rest)
      end
  | _, _ => String c (expandEnvVars env rest)
  end.
Proof.
  unfold expandEnvVars at 1. cbn [String.length expandEnvVars_scan].
  destruct (Ascii.eqb_spec c "$") as [-> | Hc].
  - destruct rest as [ | d r ]; [done | ].
    destruct (Ascii.eqb_spec d "{") as [-> | Hd].
    + destruct (until_brace r) as [[[ | c' name] after] | ] eqn:Hname; try done.
      apply until_brace_length in Hname. cbn in Hname.
      f_equal. apply expandEnvVars_fuel. cbn. lia.
    + by destruct d as [[] [] [] [] [] [] [] []].
  - by destruct c as [[] [] [] [] [] [] [] []].
Qed.

Lemma expandEnvVars_plain_char env c rest :
  c <> "$"%char ->
  expandEnvVars env (String c rest) = String c (expandEnvVars env rest).
Proof.
  intros Hc. rewrite expandEnvVars_cons.
  by destruct c as [[] [] [] [] [] [] [] []].
Qed.




Lemma until_brace_none s :
  contains_char "}" s = false -> until_brace s = None.
Proof.
  induction s as [ | c s IH ]; cbn -[Ascii.eqb]; [done | ].
  intros [Hc Hs]%orb_false_iff. rewrite Hc. by rewrite IH.
Qed.



Lemma expandEnvVars_no_dollar env str :
  contains_char "$" str = false -> expandEnvVars env str = str.
Proof.
  induction str as [ | c str IH ]; [done | ]. intros Hdollar.
  cbn -[Ascii.eqb] in Hdollar. apply orb_false_iff in Hdollar as [Hc Hstr].
  rewrite expandEnvVars_plain_char by (by apply Ascii.eqb_neq). by rewrite IH.
Qed.

(** X14: a string without a dollar sign, or without a closing brace, has no
    placeholder and is returned unchanged; so are an empty placeholder and
    an unterminated one. *)
Theorem expandEnvVars_without_placeholder env str :
  contains_char "$" str = false \/ contains_char "}" str = false ->
  expandEnvVars env str = str.
Proof.
  intros [Hdollar | Hbrace]; [by apply expandEnvVars_no_dollar | ].
  induction str as [ | c str IH ]; [done | ].
  cbn -[Ascii.eqb] in Hbrace. apply orb_false_iff in Hbrace as [Hc Hstr].
  rewrite expandEnvVars_cons, (IH Hstr).
  destruct (Ascii.eqb_spec c "$") as [-> | Hd];
    [ | by destruct c as [[] [] [] [] [] [] [] []]].
  destruct str as [ | d r ]; [done | ].
  destruct (Ascii.eqb_spec d "{") as [-> | Hd];
    [ | by destruct d as [[] [] [] [] [] [] [] []]].
  cbn -[Ascii.eqb] in Hstr. apply orb_false_iff in Hstr as [_ Hr].
  by rewrite (until_brace_none r Hr).
Qed.

Lemma expandEnvVars_without_placeholder_witness :
  expandEnvVars example_env "npx ${LLM_API_KEY" = "npx ${LLM_API_KEY".
Proof.
  apply expandEnvVars_without_placeholder. right. reflexivity.
Defined.

(** ** More about the transports *)

Lemma spread_fold_other (entries : list (string * string)) (env : Env) k :
  k ∉ entries.*1 ->
  fold_left (fun acc kv => <[kv.1 := kv.2]> acc) entries env !! k = env !! k.
Proof.
  revert env. induction entries as [ | [k' v'] entries IH ]; intros env Hk; [done | ].
  cbn in *. apply not_elem_of_cons in Hk as [Hne Hk].
  rewrite IH by done. by apply lookup_insert_ne.
Qed.

(** X15: the environment handed to a stdio server is the process
    environment overlaid with the overrides of the descriptor: an override
    is seen with its value, every other variable as in the process
    environment. *)
Theorem spread_env_lookup (env : Env) (entries : list (string * string)) k :
  NoDup entries.*1 ->
  (forall v, (k, v) ∈ entries -> spread_env env (Some entries) !! k = Some v) /\
  (k ∉ entries.*1 -> spread_env env (Some entries) !! k = env !! k).
Proof.
  intros Hnd. split; [ | by apply spread_fold_other].
  intros v Hin. cbn. revert env.
  induction entries as [ | [k' v'] entries IH ]; intros env.
  - by apply elem_of_nil in Hin.
  - cbn in *. apply NoDup_cons in Hnd as [Hfresh Hnd].
    apply elem_of_cons in Hin as [[= <- <-] | Hin].
    + rewrite spread_fold_other by done. apply lookup_insert_eq.
    + by apply IH.
Qed.

Lemma spread_env_lookup_witness :
  let overrides := [ ("LLM_API_KEY", "other"); ("MODE", "paper") ] in
  (forall v, ("MODE", v) ∈ overrides ->
             spread_env example_env (Some overrides) !! "MODE" = Some v) /\
  ("MODE" ∉ overrides.*1 ->
   spread_env example_env (Some overrides) !! "MODE" = example_env !! "MODE").
Proof.
  apply (spread_env_lookup example_env [ ("LLM_API_KEY", "other"); ("MODE", "paper") ]).
  eapply bool_decide_eq_true_1. vm_compute. reflexivity.
Defined.

(** ** More about [connectMcpServers] *)

Section ConnectExtras.
Context {World : Type} `{!Externals World}.
Implicit Types m : Machine World.





Lemma connect_entries_connecting env entries connected :
  appends connecting (connect_entries env entries connected).
Proof.
  revert connected. induction entries as [ | [n server] entries IH ];
    intros connected; cbn [connect_entries].
  - apply appends_ret.
  - destruct (missing_env env server).
    + apply appends_bind; [by apply appends_log | ]. intros _.
      apply appends_bind; [by apply appends_call | ]. intros c.
      apply appends_bind; [by apply appends_call | ]. intros ts. apply IH.
    + apply appends_bind; [by apply appends_log | ]. intros _. apply IH.
Qed.

Lemma connecting_no_close (delta : list Event) :
  Forall connecting delta -> closed_clients delta = [] /\ invocations delta = [].
Proof.
  induction 1 as [ | ev delta Hev _ [IHc IHi] ]; [done | ].
  destruct ev; try done; cbn in *; by rewrite ?IHc, ?IHi.
Qed.

(** X17: a connection failure aborts the run and nothing is torn down:
    when [connectMcpServers] throws, [runConfigMode] throws the same error,
    never calls [close], not even for the servers connected before the
    failure, and never invokes the model. *)
Theorem runConfigMode_connection_failure env config m e :
  (connectMcpServers env (default [] (mcp_servers config)) m).1 = Throw e ->
  exists delta,
    (runConfigMode env config m).1 = Throw e /\
    trace (runConfigMode env config m).2 = trace m ++ delta /\
    closed_clients delta = [] /\
    invocations delta = [].
Proof.
  intros Hthrow. unfold runConfigMode, bind. unfold connectMcpServers in *.
  destruct (connect_entries_connecting env (default [] (mcp_servers config)) [] m)
    as (delta & Htrace & Hdelta).
  destruct (connect_entries env _ [] m) as [[connected | e'] m1];
    cbn [fst snd] in *; [done | ].
  injection Hthrow as ->. exists delta.
  split_and!; [done | done | by apply connecting_no_close..].
Qed.
End ConnectExtras.


Lemma runConfigMode_connection_failure_witness :
  exists delta,
    (runConfigMode (Externals0 := flaky_world) example_env two_servers_config start).1
      = Throw "ECONNREFUSED" /\
    trace (runConfigMode (Externals0 := flaky_world) example_env two_servers_config
             start).2 = trace start ++ delta /\
    closed_clients delta = [] /\
    invocations delta = [].
Proof.
  exact (runConfigMode_connection_failure (Externals0 := flaky_world) example_env
           two_servers_config start "ECONNREFUSED" eq_refl).
Defined.
(** ** More about [runConfigMode] *)

Section RunExtras.
Context {World : Type} `{!Externals World}.
Implicit Types m : Machine World.

(** The state in which the decision loop starts. *)
Lemma run_with_servers_unfold env config servers m :
  let tools := sanitizeTools (merge_tools servers) in
  let m0 := record (EvLog LogRunning)
              (record (EvLog (LogLoaded (size tools) (length servers))) m) in
  let loop := runConfigStrategy env tools config m0 in
  let m1 := match loop.1 with
            | Ok _ => record (EvLog LogStrategyComplete) loop.2
            | Throw _ => loop.2
            end in
  run_with_servers env config servers m =
  match close_servers servers m1 with
  | (Ok _, m2) => (match loop.1 with Ok _ => Ok tt | Throw e => Throw e end, m2)
  | (Throw e, m2) => (Throw e, m2)
  end.
Proof.
  cbn zeta. unfold run_with_servers, try_finally.
  unfold bind at 1, log at 1. unfold bind at 1, log at 1. unfold bind at 1.
  destruct (runConfigStrategy _ _ _ _) as [[locals | e] m1]; cbn [fst snd log].
  - by destruct (close_servers servers _) as [[[] | e] m2].
  - by destruct (close_servers servers _) as [[[] | e'] m2].
Qed.

(** X18: when no [close] fails, [runConfigMode] ends as the decision loop
    ended: it returns if the loop returned and throws the error of the
    loop if the loop threw; and in either case every connected server has
    been closed exactly once, in connection order. *)
Theorem run_with_servers_outcome env config servers m :
  closes_succeed ->
  let tools := sanitizeTools (merge_tools servers) in
  let loop := runConfigStrategy env tools config
                (record (EvLog LogRunning)
                   (record (EvLog (LogLoaded (size tools) (length servers))) m)) in
  (run_with_servers env config servers m).1
    = match loop.1 with Ok _ => Ok tt | Throw e => Throw e end /\
  closed_clients (trace (run_with_servers env config servers m).2)
    = closed_clients (trace m) ++ (client <$> servers).
Proof.
  intros Hcloses. cbn zeta. rewrite run_with_servers_unfold. cbn zeta.
  set (tools := sanitizeTools (merge_tools servers)).
  set (m0 := record (EvLog LogRunning) _).
  destruct (runConfigStrategy_no_close env tools config m0) as (d & Htrace & Hd).
  set (loop := runConfigStrategy env tools config m0) in *.
  set (m1 := match loop.1 with Ok _ => _ | Throw _ => _ end).
  assert (closed_clients (trace m1) = closed_clients (trace m)) as Hm1.
  { subst m1. destruct loop.1; cbn [record trace]; rewrite Htrace; subst m0;
      cbn [record trace];
      rewrite !closed_clients_app, (closed_clients_none d Hd), !closed_clients_log;
      by rewrite !app_nil_r. }
  destruct (close_servers_run servers m1) as (k & _ & Hclosed & _ & Hok).
  destruct (Hok Hcloses) as [-> Hres].
  destruct (close_servers servers m1) as [[[] | e] m2]; cbn [fst snd] in *; [ | done].
  split; [done | ].
  rewrite Hclosed, closed_clients_app, closed_clients_closes, Hm1.
  by rewrite take_ge by (by rewrite length_fmap).
Qed.

Lemma invocations_closes (clients : list Client) : invocations (EvClose <$> clients) = [].
Proof. by induction clients. Qed.

(** X19: every invocation of the model in a run is given the merged tool
    set after sanitization, and nothing else as tools. *)
Theorem run_with_servers_tools env config servers m :
  exists delta,
    trace (run_with_servers env config servers m).2 = trace m ++ delta /\
    Forall (fun a => arg_tools a = sanitizeTools (merge_tools servers))
      (invocations delta).
Proof.
  rewrite run_with_servers_unfold. cbn zeta.
  set (tools := sanitizeTools (merge_tools servers)).
  set (m0 := record (EvLog LogRunning) _).
  assert (exists d, trace (runConfigStrategy env tools config m0).2 = trace m0 ++ d /\
                    Forall (fun a => arg_tools a = tools) (invocations d))
    as (d & Htrace & Hd).
  { destruct (getModel env config) as [model | e] eqn:Hmodel.
    - destruct (runConfigStrategy_invocation_arguments_aux env tools config model m0 Hmodel)
        as (d & Htrace & Hgiven). exists d. split; [done | ].
      eapply Forall_impl; [exact Hgiven | ]. by intros a (_ & Htools & _).
    - exists []. unfold runConfigStrategy. rewrite Hmodel. cbn.
      by rewrite app_nil_r. }
  set (loop := runConfigStrategy env tools config m0) in *.
  set (m1 := match loop.1 with Ok _ => _ | Throw _ => _ end).
  assert (exists d1, trace m1 = trace m ++ d1 /\
                     Forall (fun a => arg_tools a = tools) (invocations d1))
    as (d1 & Hm1 & Hd1).
  { subst m1 m0. cbn [record trace] in Htrace.
    destruct loop.1; cbn [record trace]; rewrite Htrace.
    - eexists (_ :: _ :: d ++ [_]). split; [by rewrite <- !app_assoc | ].
      rewrite !invocations_log, invocations_app, invocations_log.
      by rewrite app_nil_r.
    - eexists (_ :: _ :: d). split; [by rewrite <- !app_assoc | ].
      by rewrite !invocations_log. }
  destruct (close_servers_run servers m1) as (k & _ & Hclosed & _).
  exists (d1 ++ (EvClose <$> take k (client <$> servers))).
  split.
  - destruct (close_servers servers m1) as [[[] | e] m2]; cbn [fst snd] in *;
      by rewrite Hclosed, Hm1, <- app_assoc.
  - by rewrite invocations_app, invocations_closes, app_nil_r.
Qed.
End RunExtras.

(** ** More about merging *)

(** X20: merging invents nothing and loses no name: a tool of the merged
    set is the tool some server exposes under that name, and a name that
    some server exposes is in the merged set. *)
Theorem merge_tools_provenance (servers : list ConnectedServer) (t : string) :
  (forall tool, merge_tools servers !! t = Some tool ->
                exists s, s ∈ servers /\ tools s !! t = Some tool) /\
  (forall s, s ∈ servers -> is_Some (tools s !! t) -> is_Some (merge_tools servers !! t)).
Proof.
  induction servers as [ | last servers [IHfrom IHto] ] using rev_ind.
  - split; [done | by intros s ?%elem_of_nil].
  - split.
    + intros tool. rewrite merge_tools_snoc, Object_assign_lookup.
      destruct (tools last !! t) as [tool' | ] eqn:Hlast.
      * intros [= <-]. exists last. split; [ | done]. apply elem_of_app. right. by left.
      * intros Hmerged. destruct (IHfrom tool Hmerged) as (s & Hin & Hs).
        exists s. split; [ | done]. apply elem_of_app. by left.
    + intros s Hin Hs. rewrite merge_tools_snoc, Object_assign_lookup.
      destruct (tools last !! t) as [tool' | ] eqn:Hlast; [done | ].
      apply elem_of_app in Hin as [Hin | Hin%list_elem_of_singleton].
      * by apply (IHto s).
      * subst s. rewrite Hlast in Hs. by destruct Hs.
Qed.

Lemma run_with_servers_outcome_witness :
  let run := run_with_servers (Externals0 := compliant_world) example_env example_config
               [ first_server; second_server ] start in
  run.1 = Ok tt /\ closed_clients (trace run.2) = [ 1; 2 ].
Proof.
  apply (run_with_servers_outcome (Externals0 := compliant_world) example_env
           example_config [ first_server; second_server ] start).
  intros c w. by exists (S w).
Defined.

(** ** More about [expandAllEnvVars] *)




